(** * The MMIO socket bridge device (hw/misc/mmio_sockdev.c)

    A shallow embedding of the SysBus device that forwards guest register
    accesses to an external peer over a character backend, and the
    properties of its wire protocol and of its access dispatch.

    Layout:
    - machine integers and the C conversions the device performs;
    - the byte-order helpers it calls;
    - the character backend (transport), the mutex and the diagnostics;
    - [mmio_sockdev_read], [mmio_sockdev_write], [mmio_sockdev_realize];
    - the codec as the specification words it;
    - the bus in front of the device and the guest firmware
      (firmware/main.c) that drives it;
    - the theorems. *)

From Stdlib Require Import ZArith Lia Bool String.
From stdpp Require Import base list.

Local Open Scope Z_scope.

(* ===================================================================== *)
(** ** Machine integers *)
(* ===================================================================== *)

(** Conversion to an unsigned type of [w] bits keeps the value modulo 2^w. *)
Definition to_unsigned (w : Z) (x : Z) : Z := x mod 2 ^ w.

Definition uint8_t : Z → Z := to_unsigned 8.
Definition uint16_t : Z → Z := to_unsigned 16.
Definition uint32_t : Z → Z := to_unsigned 32.
Definition uint64_t : Z → Z := to_unsigned 64.

(** Conversion of a 32-bit pattern to [int] (two's complement). *)
Definition to_int (x : Z) : Z :=
  let u := uint32_t x in if u <? 2 ^ 31 then u else u - 2 ^ 32.

(** Arrays of [uint8_t] are lists of bytes; an index outside the array reads
    as 0 here (the device never reads outside the arrays it declares). *)
Definition byte_at (a : list Z) (i : nat) : Z := default 0 (a !! i).

(* ===================================================================== *)
(** ** Byte-order helpers *)
(* ===================================================================== *)

(** Modelled from the spec: qemu/bswap.h is not among the sources.  The
    helpers store and load integers in little-endian byte order: [stw_le_p]
    and [stl_le_p] store the 2 or 4 low bytes of [v] at [p], least
    significant byte first; [lduw_le_p] and [ldl_le_p] load a little-endian
    16-bit and 32-bit unsigned integer from [p]. *)
Definition stw_le_p (p : nat) (v : Z) (a : list Z) : list Z :=
  <[(p + 1)%nat := Z.land (Z.shiftr v 8) 255]> (<[p := Z.land v 255]> a).

Definition stl_le_p (p : nat) (v : Z) (a : list Z) : list Z :=
  <[(p + 3)%nat := Z.land (Z.shiftr v 24) 255]>
    (<[(p + 2)%nat := Z.land (Z.shiftr v 16) 255]>
       (<[(p + 1)%nat := Z.land (Z.shiftr v 8) 255]>
          (<[p := Z.land v 255]> a))).

Definition lduw_le_p (a : list Z) (p : nat) : Z :=
  Z.lor (byte_at a p) (Z.shiftl (byte_at a (p + 1)) 8).

Definition ldl_le_p (a : list Z) (p : nat) : Z :=
  Z.lor (byte_at a p)
    (Z.lor (Z.shiftl (byte_at a (p + 1)) 8)
       (Z.lor (Z.shiftl (byte_at a (p + 2)) 16)
          (Z.shiftl (byte_at a (p + 3)) 24))).

(* ===================================================================== *)
(** ** The device state and its environment *)
(* ===================================================================== *)

(** A call the device made on its character backend. *)
Inductive fe_call : Type :=
  | FeWriteAll (bytes : list Z)
  | FeReadAll (len : Z).

(** The character backend together with the peer behind it: whether a peer
    is connected, how many more bytes the peer will take ([be_room]), the
    bytes it has observed ([be_tx]), the bytes it has supplied that the
    device has not consumed yet ([be_rx]), and the calls served so far. *)
Record CharBackend : Type := mkCharBackend {
  be_connected : bool;
  be_room : nat;
  be_tx : list Z;
  be_rx : list Z;
  be_calls : list fe_call
}.

Inductive QemuMutex : Type := MutexUninit | MutexFree | MutexHeld.

Record MemoryRegion : Type := mkMemoryRegion {
  mr_name : string;
  mr_size : Z;
  mr_min_access_size : Z;
  mr_max_access_size : Z
}.

(** [SysBusDevice parent_obj]: the regions exported to the bus and the
    address region 0 is mapped at, if any. *)
Record SysBusDevice : Type := mkSysBusDevice {
  sb_mmio : list MemoryRegion;
  sb_mapped : option Z
}.

Record MMIOSockDevState : Type := mkMMIOSockDevState {
  parent_obj : SysBusDevice;
  mmio : option MemoryRegion;
  chr : CharBackend;
  base_addr : Z;
  lock : QemuMutex
}.

(** A diagnostic: the format string handed to [error_report] (or
    [error_setg]) and its arguments. *)
Definition report : Type := string * list Z.

(** The device within its host: the instance and the host's diagnostic
    channel. *)
Record World : Type := mkWorld {
  dev : MMIOSockDevState;
  diag : list report
}.

Definition set_chr (c : CharBackend) (s : MMIOSockDevState)
  : MMIOSockDevState :=
  mkMMIOSockDevState (parent_obj s) (mmio s) c (base_addr s) (lock s).

Definition set_lock (l : QemuMutex) (s : MMIOSockDevState)
  : MMIOSockDevState :=
  mkMMIOSockDevState (parent_obj s) (mmio s) (chr s) (base_addr s) l.

(** What stops an access from returning to the guest. *)
Inductive fault : Type :=
  | MutexNotInitialized   (* the mutex operations assert an initialised mutex *)
  | MutexBlocked          (* waiting for a mutex that is held *)
  | BufferOverrun.        (* a store past the end of a local array *)

Inductive outcome (A : Type) : Type :=
  | Done (a : A) (w : World)
  | Fault (f : fault).
Arguments Done {A} a w.
Arguments Fault {A} f.

(** Host code: a computation over the world that returns or faults. *)
Definition M (A : Type) : Type := World → outcome A.

#[export] Instance M_ret : MRet M := fun A (a : A) w => Done a w.

#[export] Instance M_bind : MBind M := fun A B (k : A → M B) (m : M A) w =>
  match m w with
  | Done a w' => k a w'
  | Fault f => Fault f
  end.

(* ===================================================================== *)
(** ** The primitives the device calls *)
(* ===================================================================== *)

(** Modelled from the spec: qemu/thread.h is not among the sources.  The
    lock is a plain mutual-exclusion lock: taking it when it is held waits
    (for ever, when nobody else runs), and it must have been initialised. *)
Definition qemu_mutex_lock : M unit := fun w =>
  match lock (dev w) with
  | MutexUninit => Fault MutexNotInitialized
  | MutexHeld => Fault MutexBlocked
  | MutexFree => Done tt (mkWorld (set_lock MutexHeld (dev w)) (diag w))
  end.

Definition qemu_mutex_unlock : M unit := fun w =>
  match lock (dev w) with
  | MutexUninit => Fault MutexNotInitialized
  | _ => Done tt (mkWorld (set_lock MutexFree (dev w)) (diag w))
  end.

Definition error_report (fmt : string) (args : list Z) : M unit := fun w =>
  Done tt (mkWorld (dev w) (diag w ++ [(fmt, args)])).

(** Modelled from the spec: chardev/char-fe.h is not among the sources.
    [write_all(bytes) -> bytes_written] attempts to write the full buffer
    and returns how many bytes actually went out; [read_all(buffer_size) ->
    bytes_read, data] attempts to fill a buffer of the requested size, and a
    short read leaves the rest of the buffer as it was.  The length is an
    [int]; nothing is transferred for a length that is not positive.

    Both calls are modelled where they return: the backend moves the bytes
    asked for, or the connection fails and the call comes back with a short
    count ([be_room] is what the peer takes and [be_rx] what it supplies
    before that).  A call that a hung peer keeps waiting for ever has no
    counterpart here, so nothing below says that an access is bound to
    return whatever the peer does: a statement that an access returns is
    about a backend whose calls return. *)
Definition fe_write_all (c : CharBackend) (buf : list Z) (len : Z)
  : Z * CharBackend :=
  let bytes := take (Z.to_nat len) buf in
  let n := Nat.min (length bytes) (be_room c) in
  (Z.of_nat n,
   mkCharBackend (be_connected c) (be_room c - n)%nat
     (be_tx c ++ take n bytes) (be_rx c)
     (be_calls c ++ [FeWriteAll bytes])).

Definition fe_read_all (c : CharBackend) (len : Z)
  : Z * list Z * CharBackend :=
  let n := Nat.min (Z.to_nat len) (length (be_rx c)) in
  (Z.of_nat n, take n (be_rx c),
   mkCharBackend (be_connected c) (be_room c)
     (be_tx c) (drop n (be_rx c))
     (be_calls c ++ [FeReadAll len])).

Definition qemu_chr_fe_write_all (buf : list Z) (len : Z) : M Z := fun w =>
  let '(n, c) := fe_write_all (chr (dev w)) buf len in
  Done n (mkWorld (set_chr c (dev w)) (diag w)).

(** The bytes read land in [buf], which is an array of fixed length: more
    bytes than it holds overrun it. *)
Definition qemu_chr_fe_read_all (buf : list Z) (len : Z) : M (Z * list Z) :=
  fun w =>
  let '(n, data, c) := fe_read_all (chr (dev w)) len in
  if (length buf <? length data)%nat then Fault BufferOverrun
  else Done (n, data ++ drop (length data) buf)
            (mkWorld (set_chr c (dev w)) (diag w)).

Definition qemu_chr_fe_backend_connected (s : MMIOSockDevState) : bool :=
  be_connected (chr s).

(* ===================================================================== *)
(** ** The device *)
(* ===================================================================== *)

Definition TYPE_MMIO_SOCKDEV : string := "mmio-sockdev".

(** The request of a read: ['R'], the offset as [uint32_t] in little-endian
    order, the size as [uint8_t]. *)
Definition read_request (offset size : Z) : list Z :=
  let req := [82; 0; 0; 0; 0; 0] in            (* uint8_t req[6] = { 'R' } *)
  let req := stl_le_p 1 (uint32_t offset) req in
  <[5%nat := uint8_t size]> req.

(** The conversion of the response from little-endian: the [switch] at the
    end of [mmio_sockdev_read]; [None] is its [default] branch. *)
Definition read_convert (buf : list Z) (size : Z) : option Z :=
  if size =? 1 then Some (byte_at buf 0)
  else if size =? 2 then Some (lduw_le_p buf 0)
  else if size =? 4 then Some (ldl_le_p buf 0)
  else None.

Definition mmio_sockdev_read (offset size : Z) : M Z :=
  let value := 0 in
  let buf := replicate 8 0 in                  (* uint8_t buf[8] = {0} *)
  qemu_mutex_lock;;
  let req := read_request offset size in
  r ← qemu_chr_fe_write_all req 6;
  value ←
    (if negb (uint64_t r =? 6) then
       error_report "mmio-sockdev: failed to send read request" [];;
       mret value
     else
       rb ← qemu_chr_fe_read_all buf (to_int size);
       let '(r, buf) := rb in
       if negb (uint32_t r =? size) then
         error_report "mmio-sockdev: failed to read response" [];;
         mret value
       else
         match read_convert buf size with
         | Some v => mret v
         | None =>
             error_report "mmio-sockdev: invalid read size %u" [size];;
             mret value
         end);
  qemu_mutex_unlock;;
  mret value.

(** The header of a write request: ['W'], the offset, the size. *)
Definition write_header (offset size : Z) : list Z :=
  let req := replicate 14 0 in  (* uint8_t req[14]: indeterminate in C, zeros
                                   here; every byte sent is stored first *)
  let req := <[0%nat := 87]> req in
  let req := stl_le_p 1 (uint32_t offset) req in
  <[5%nat := uint8_t size]> req.

(** The data added in little-endian format: the [switch] of
    [mmio_sockdev_write]; [None] is its [default] branch. *)
Definition write_data (req : list Z) (value size : Z) : option (list Z) :=
  if size =? 1 then Some (<[6%nat := uint8_t value]> req)
  else if size =? 2 then Some (stw_le_p 6 (uint16_t value) req)
  else if size =? 4 then Some (stl_le_p 6 (uint32_t value) req)
  else None.

Definition mmio_sockdev_write (offset value size : Z) : M unit :=
  let packet_size := to_int (6 + size) in
  qemu_mutex_lock;;
  let req := write_header offset size in
  match write_data req value size with
   | Some req =>
       r ← qemu_chr_fe_write_all req packet_size;
       if negb (r =? packet_size) then
         error_report "mmio-sockdev: failed to send write request" []
       else mret tt
   | None =>
       error_report "mmio-sockdev: invalid write size %u" [size]
   end;;
  qemu_mutex_unlock.

(** [mmio_sockdev_ops] with the region [mmio_sockdev_realize] creates. *)
Definition mmio_sockdev_region : MemoryRegion :=
  mkMemoryRegion TYPE_MMIO_SOCKDEV 4096 1 4.

(** Activation: the error handed back through [errp], if any, and the
    instance afterwards. *)
Definition mmio_sockdev_realize (s : MMIOSockDevState)
  : option report * MMIOSockDevState :=
  if negb (qemu_chr_fe_backend_connected s) then
    (Some ("mmio-sockdev: chardev not connected"%string, []), s)
  else
    let l := MutexFree in                                 (* qemu_mutex_init *)
    let mr := mmio_sockdev_region in                (* memory_region_init_io *)
    let sb := mkSysBusDevice (sb_mmio (parent_obj s) ++ [mr])
                (sb_mapped (parent_obj s)) in             (* sysbus_init_mmio *)
    let sb := if negb (base_addr s =? 0)
              then mkSysBusDevice (sb_mmio sb) (Some (base_addr s))
              else sb in                                   (* sysbus_mmio_map *)
    (None, mkMMIOSockDevState sb (Some mr) (chr s) (base_addr s) l).

Definition mmio_sockdev_unrealize (s : MMIOSockDevState) : MMIOSockDevState :=
  set_lock MutexUninit s.                              (* qemu_mutex_destroy *)

(* ===================================================================== *)
(** ** The codec as the specification words it *)
(* ===================================================================== *)

(** The [n] low bytes of [v], least significant first. *)
Fixpoint le_bytes (n : nat) (v : Z) : list Z :=
  match n with
  | O => []
  | S k => v mod 256 :: le_bytes k (v / 256)
  end.

(** The unsigned integer a little-endian byte sequence denotes. *)
Fixpoint le_value (bs : list Z) : Z :=
  match bs with
  | [] => 0
  | b :: rest => b + 256 * le_value rest
  end.

(** [encode_read_request(address, size) -> bytes[6]]: byte 0 = ['R'];
    bytes 1..4 = address, little-endian; byte 5 = size. *)
Definition encode_read_request (address size : Z) : list Z :=
  [82] ++ le_bytes 4 address ++ [size].

(** [encode_write_request(address, size, value) -> bytes[6+size]]: byte 0 =
    ['W']; bytes 1..4 = address LE; byte 5 = size; then the value truncated
    to [size] bytes, little-endian. *)
Definition encode_write_request (address size value : Z) : list Z :=
  [87] ++ le_bytes 4 address ++ [size]
       ++ le_bytes (Z.to_nat size) (value mod 2 ^ (8 * size)).

(** The vocabulary of the statements below. *)
Definition transport (w : World) : CharBackend := chr (dev w).

Definition idle (w : World) : Prop := lock (dev w) = MutexFree.

Definition valid_size (size : Z) : Prop := size = 1 ∨ size = 2 ∨ size = 4.

(** The backend after a [write_all] of [bytes], and after a [read_all]. *)
Definition sent (c : CharBackend) (bytes : list Z) : CharBackend :=
  (fe_write_all c bytes (Z.of_nat (length bytes))).2.

Definition received (c : CharBackend) (len : Z) : CharBackend :=
  (fe_read_all c len).2.

Definition with_chr (c : CharBackend) (w : World) : World :=
  mkWorld (set_chr c (dev w)) (diag w).

Definition reporting (r : report) (w : World) : World :=
  mkWorld (dev w) (diag w ++ [r]).

(** The next access succeeds against a healthy transport: whatever backend
    [c] the device then talks to, if [c] takes the request and supplies the
    response, a read returns the decoded response and a write puts its
    request on the wire, and neither reports anything. *)
Definition usable (w : World) : Prop :=
  ∀ (c : CharBackend) (offset size v : Z) (pad : list Z),
    valid_size size →
    (Z.to_nat (6 + size) ≤ be_room c)%nat →
    be_rx c = le_bytes (Z.to_nat size) v ++ pad →
    (∃ w', mmio_sockdev_read offset size (with_chr c w)
           = Done (v mod 2 ^ (8 * size)) w'
           ∧ diag w' = diag w)
    ∧ (∃ w', mmio_sockdev_write offset v size (with_chr c w) = Done tt w'
             ∧ be_tx (transport w')
               = be_tx c ++ encode_write_request (uint32_t offset) size v
             ∧ diag w' = diag w).

(** Worlds the statements are tried on: a connected peer that takes [room]
    more bytes and has supplied [rx], and a realised, unmapped device in
    front of it. *)
Definition backend_with (room : nat) (rx : list Z) : CharBackend :=
  mkCharBackend true room [] rx [].

Definition realised_with (c : CharBackend) : World :=
  mkWorld (mkMMIOSockDevState (mkSysBusDevice [mmio_sockdev_region] None)
             (Some mmio_sockdev_region) c 0 MutexFree) [].

(** A device as constructed, before activation, without a peer. *)
Definition unrealised_unconnected : MMIOSockDevState :=
  mkMMIOSockDevState (mkSysBusDevice [] None) None
    (mkCharBackend false 0 [] [] []) 0 MutexUninit.

(* ===================================================================== *)
(** ** The bus in front of the device *)
(* ===================================================================== *)

(** Modelled from the spec: the bus framework that dispatches guest accesses
    is not among the sources.  A guest access reaches the device when its
    region exists and is mapped, the address falls in the window, and the
    size is one the region declares valid; the device is handed the offset
    within the window. *)
Definition bus_lookup (s : MMIOSockDevState) (addr size : Z) : option Z :=
  match mmio s, sb_mapped (parent_obj s) with
  | Some mr, Some base =>
      if (base <=? addr) && (addr <? base + mr_size mr)
         && (mr_min_access_size mr <=? size)
         && (size <=? mr_max_access_size mr)
      then Some (addr - base) else None
  | _, _ => None
  end.

(** What stops the guest: an access nothing answers, a device access that
    does not return, or a loop that has not ended when the fuel has. *)
Inductive halt : Type :=
  | DataAbort (addr : Z)
  | DeviceStuck (f : fault)
  | OutOfFuel.

Inductive run (A : Type) : Type :=
  | Returned (a : A) (w : World)
  | Halted (h : halt).
Arguments Returned {A} a w.
Arguments Halted {A} h.

(** Guest code. *)
Definition G (A : Type) : Type := World → run A.

#[export] Instance G_ret : MRet G := fun A (a : A) w => Returned a w.

#[export] Instance G_bind : MBind G := fun A B (k : A → G B) (m : G A) w =>
  match m w with
  | Returned a w' => k a w'
  | Halted h => Halted h
  end.

Definition device {A : Type} (m : M A) : G A := fun w =>
  match m w with
  | Done a w' => Returned a w'
  | Fault f => Halted (DeviceStuck f)
  end.

Definition bus_read (addr size : Z) : G Z := fun w =>
  match bus_lookup (dev w) addr size with
  | Some offset => device (mmio_sockdev_read offset size) w
  | None => Halted (DataAbort addr)
  end.

Definition bus_write (addr value size : Z) : G unit := fun w =>
  match bus_lookup (dev w) addr size with
  | Some offset => device (mmio_sockdev_write offset value size) w
  | None => Halted (DataAbort addr)
  end.

(* ===================================================================== *)
(** ** The guest firmware (firmware/main.c) *)
(* ===================================================================== *)

Definition MMIO_BASE : Z := 268566528.                       (* 0x10020000 *)
Definition TXDATA_REG : Z := MMIO_BASE + 0.
Definition STATUS_REG : Z := MMIO_BASE + 4.
Definition CTRL_REG : Z := MMIO_BASE + 8.

(** The volatile accesses: a store or a load of the pointed-to width. *)
Definition mmio_write32 (addr value : Z) : G unit :=
  bus_write (uint32_t addr) (uint32_t value) 4.

Definition mmio_read32 (addr : Z) : G Z :=
  v ← bus_read (uint32_t addr) 4;
  mret (uint32_t v).

Definition mmio_write8 (addr value : Z) : G unit :=
  bus_write (uint32_t addr) (uint8_t value) 1.

(** [while (!(mmio_read32(STATUS_REG) & 0x1))]: the loop has no bound of its
    own; [fuel] bounds the iterations followed. *)
Fixpoint wait_tx_ready (fuel : nat) : G unit :=
  match fuel with
  | O => fun _ => Halted OutOfFuel
  | S fuel' =>
      st ← mmio_read32 STATUS_REG;
      if Z.land st 1 =? 0 then wait_tx_ready fuel' else mret tt
  end.

Definition send_char (fuel : nat) (c : Z) : G unit :=
  wait_tx_ready fuel;;
  mmio_write8 TXDATA_REG c.

(** [str] holds the characters from the pointer on; the loop ends at the
    first NUL, and the end of the list stands for the terminator. *)
Fixpoint send_string (fuel : nat) (str : list Z) : G unit :=
  match str with
  | [] => mret tt
  | c :: str' =>
      if c =? 0 then mret tt
      else send_char fuel c;; send_string fuel str'
  end.

(** ["Hello from MMIO sockdev\n"] *)
Definition hello : list Z :=
  [72; 101; 108; 108; 111; 32; 102; 114; 111; 109; 32; 77; 77; 73; 79; 32;
   115; 111; 99; 107; 100; 101; 118; 10].

(** [main] up to its closing wait-for-interrupt loop, which never exits. *)
Definition main (fuel : nat) : G unit :=
  mmio_write32 CTRL_REG 1;;
  send_string fuel hello.

(** The device is realised, mapped where the firmware expects it, and no
    exchange is under way. *)
Definition attached (w : World) : Prop :=
  mmio (dev w) = Some mmio_sockdev_region
  ∧ sb_mapped (parent_obj (dev w)) = Some MMIO_BASE
  ∧ idle w.

(** The characters of a C string: those before the first NUL. *)
Fixpoint c_string (str : list Z) : list Z :=
  match str with
  | [] => []
  | c :: str' => if c =? 0 then [] else c :: c_string str'
  end.

(** The two requests the firmware makes per character. *)
Definition status_poll : list Z := [82; 4; 0; 0; 0; 4].

Definition txdata_write (c : Z) : list Z := [87; 0; 0; 0; 0; 1; c mod 256].

(** A device mapped at the firmware's base in front of a given peer. *)
Definition attached_with (c : CharBackend) : World :=
  mkWorld (mkMMIOSockDevState
             (mkSysBusDevice [mmio_sockdev_region] (Some MMIO_BASE))
             (Some mmio_sockdev_region) c MMIO_BASE MutexFree) [].

(** A device as constructed with a connected peer and the firmware's base
    address as its [addr] property. *)
Definition constructed_with (c : CharBackend) : MMIOSockDevState :=
  mkMMIOSockDevState (mkSysBusDevice [] None) None c MMIO_BASE MutexUninit.

(** Symbolic execution of an access: unfold the monad and the primitives on
    a world given by its fields. *)
Ltac exec :=
  cbv [mmio_sockdev_read mmio_sockdev_write mbind mret M_bind M_ret
       qemu_mutex_lock qemu_mutex_unlock error_report
       qemu_chr_fe_write_all qemu_chr_fe_read_all fe_write_all fe_read_all
       sent received with_chr reporting transport idle
       set_chr set_lock dev diag chr lock parent_obj mmio base_addr
       be_connected be_room be_tx be_rx be_calls fst snd].

Ltac open_world w H :=
  destruct w as [[?sb ?mr [?conn ?room ?tx ?rx ?calls] ?ba ?l] ?dg];
  unfold idle in H; cbn [lock dev] in H; subst.

(** Closing one exit of a read: an overrun, or a return with the lock free,
    the device framed and at most one report. *)
Ltac read_exit :=
  first
    [ left; reflexivity
    | right; eexists _, _; split; [reflexivity|];
      split; [reflexivity|]; split; [reflexivity|];
      first [ left; reflexivity
            | right; split; [reflexivity|]; eexists; reflexivity ] ].

(* ===================================================================== *)
(** ** Arithmetic of the byte order *)
(* ===================================================================== *)

Lemma land_255 v : Z.land v 255 = v mod 256.
Proof. change 255 with (Z.ones 8). rewrite Z.land_ones by lia. reflexivity. Qed.

Lemma byte_of_shiftr v k :
  0 ≤ k → Z.land (Z.shiftr v k) 255 = (v / 2 ^ k) mod 256.
Proof. intros Hk. rewrite land_255, Z.shiftr_div_pow2 by lia. reflexivity. Qed.

Lemma mod_mod_pow2 v a b :
  0 ≤ a ≤ b → (v mod 2 ^ b) mod 2 ^ a = v mod 2 ^ a.
Proof.
  intros H. apply Z.mod_mod_divide.
  exists (2 ^ (b - a)). rewrite <- Z.pow_add_r by lia. f_equal. lia.
Qed.

Lemma div_mod_pow2 v a b :
  0 ≤ a ≤ b → (v mod 2 ^ b) / 2 ^ a = (v / 2 ^ a) mod 2 ^ (b - a).
Proof.
  intros H.
  assert (Ha : 0 < 2 ^ a) by (apply Z.pow_pos_nonneg; lia).
  assert (Hb : 0 < 2 ^ (b - a)) by (apply Z.pow_pos_nonneg; lia).
  replace (2 ^ b) with (2 ^ a * 2 ^ (b - a))
    by (rewrite <- Z.pow_add_r by lia; f_equal; lia).
  rewrite Z.rem_mul_r by lia.
  rewrite (Z.mul_comm (2 ^ a)), Z.div_add by lia.
  rewrite Z.div_small by (apply Z.mod_pos_bound; lia). lia.
Qed.

Lemma le_bytes_length n v : length (le_bytes n v) = n.
Proof.
  revert v; induction n as [|n IH]; intros v; simpl; [done|]. by rewrite IH.
Qed.

(** Only the [k] low bytes of a value matter to its first [n ≤ k] bytes. *)
Lemma le_bytes_mod n v k :
  (n ≤ k)%nat → le_bytes n (v mod 2 ^ (8 * Z.of_nat k)) = le_bytes n v.
Proof.
  revert v k; induction n as [|n IH]; intros v k Hk; simpl; [done|].
  destruct k as [|k]; [lia|].
  change 256 with (2 ^ 8). f_equal.
  - apply mod_mod_pow2. lia.
  - rewrite div_mod_pow2 by lia.
    replace (8 * Z.of_nat (S k) - 8) with (8 * Z.of_nat k) by lia.
    apply IH. lia.
Qed.

Lemma le_value_le_bytes n v :
  le_value (le_bytes n v) = v mod 2 ^ (8 * Z.of_nat n).
Proof.
  revert v; induction n as [|n IH]; intros v.
  - simpl. by rewrite Z.mod_1_r.
  - cbn [le_bytes le_value]. rewrite IH.
    replace (2 ^ (8 * Z.of_nat (S n))) with (256 * 2 ^ (8 * Z.of_nat n)).
    + rewrite Z.rem_mul_r; [reflexivity|lia|]. apply Z.pow_pos_nonneg; lia.
    + change 256 with (2 ^ 8). rewrite <- Z.pow_add_r by lia. f_equal. lia.
Qed.

(** What [stw_le_p] and [stl_le_p] store. *)
Lemma stw_bytes v :
  [Z.land v 255; Z.land (Z.shiftr v 8) 255] = le_bytes 2 v.
Proof. rewrite land_255, !byte_of_shiftr by lia. reflexivity. Qed.

Lemma stl_bytes v :
  [Z.land v 255; Z.land (Z.shiftr v 8) 255;
   Z.land (Z.shiftr v 16) 255; Z.land (Z.shiftr v 24) 255] = le_bytes 4 v.
Proof.
  rewrite land_255, !byte_of_shiftr by lia. simpl.
  rewrite !Z.div_div by lia. reflexivity.
Qed.

(** A byte and the bytes above it do not overlap. *)
Lemma lor_shiftl_byte a x :
  0 ≤ a < 256 → Z.lor a (Z.shiftl x 8) = a + 256 * x.
Proof.
  intros Ha.
  assert (Hland : Z.land a (Z.shiftl x 8) = 0).
  { apply Z.bits_inj'. intros n Hn. rewrite Z.land_spec, Z.bits_0.
    destruct (Z.ltb_spec n 8).
    - rewrite Z.shiftl_spec_low by lia. apply andb_false_r.
    - rewrite <- (Z.mod_small a (2 ^ 8)) by (change (2 ^ 8) with 256; lia).
      rewrite Z.mod_pow2_bits_high by lia. reflexivity. }
  rewrite <- Z.lxor_lor by exact Hland.
  rewrite <- Z.add_nocarry_lxor by exact Hland.
  rewrite Z.shiftl_mul_pow2 by lia. change (2 ^ 8) with 256. lia.
Qed.

Lemma lduw_le_p_value b0 b1 pad :
  0 ≤ b0 < 256 → lduw_le_p (b0 :: b1 :: pad) 0 = le_value [b0; b1].
Proof.
  intros H0. unfold lduw_le_p, byte_at.
  cbn [lookup list_lookup default from_option id Nat.add le_value].
  rewrite lor_shiftl_byte by done. lia.
Qed.

Lemma ldl_le_p_value b0 b1 b2 b3 pad :
  0 ≤ b0 < 256 → 0 ≤ b1 < 256 → 0 ≤ b2 < 256 →
  ldl_le_p (b0 :: b1 :: b2 :: b3 :: pad) 0 = le_value [b0; b1; b2; b3].
Proof.
  intros H0 H1 H2. unfold ldl_le_p, byte_at.
  cbn [lookup list_lookup default from_option id Nat.add le_value].
  replace (Z.shiftl b3 24) with (Z.shiftl (Z.shiftl (Z.shiftl b3 8) 8) 8)
    by (rewrite !Z.shiftl_shiftl by lia; reflexivity).
  replace (Z.shiftl b2 16) with (Z.shiftl (Z.shiftl b2 8) 8)
    by (rewrite !Z.shiftl_shiftl by lia; reflexivity).
  rewrite <- !Z.shiftl_lor.
  rewrite !lor_shiftl_byte by done. lia.
Qed.

Lemma to_int_small x : 0 ≤ x < 2 ^ 31 → to_int x = x.
Proof.
  intros Hx. unfold to_int, uint32_t, to_unsigned.
  rewrite Z.mod_small by lia. destruct (Z.ltb_spec x (2 ^ 31)); lia.
Qed.

Lemma uint32_t_period offset k :
  uint32_t (offset + k * 2 ^ 32) = uint32_t offset.
Proof. unfold uint32_t, to_unsigned. apply Z.mod_add. lia. Qed.

(* ===================================================================== *)
(** ** The packets the device builds *)
(* ===================================================================== *)

Lemma read_request_length offset size :
  length (read_request offset size) = 6%nat.
Proof. reflexivity. Qed.

Lemma take_read_request offset size :
  take (Z.to_nat 6) (read_request offset size) = read_request offset size.
Proof. reflexivity. Qed.

Lemma read_request_encodes offset size :
  read_request offset size
  = encode_read_request (uint32_t offset) (uint8_t size).
Proof. unfold encode_read_request. rewrite <- stl_bytes. reflexivity. Qed.

Lemma uint8_t_small size : 0 ≤ size < 256 → uint8_t size = size.
Proof. intros H. unfold uint8_t, to_unsigned. apply Z.mod_small. lia. Qed.

Lemma read_request_encodes_byte offset size :
  0 ≤ size < 256 →
  read_request offset size = encode_read_request (uint32_t offset) size.
Proof.
  intros H. rewrite read_request_encodes, uint8_t_small by done. reflexivity.
Qed.

Lemma write_data_invalid req value size :
  ¬ valid_size size → write_data req value size = None.
Proof.
  intros Hsize. unfold write_data, valid_size in *.
  destruct (Z.eqb_spec size 1); [tauto|].
  destruct (Z.eqb_spec size 2); [tauto|].
  destruct (Z.eqb_spec size 4); [tauto|]. reflexivity.
Qed.

Lemma write_data_valid offset value size :
  valid_size size →
  write_data (write_header offset size) value size
  = Some (encode_write_request (uint32_t offset) size value
          ++ replicate (8 - Z.to_nat size) 0).
Proof.
  intros [-> | [-> | ->]]; unfold write_data, encode_write_request;
    cbn [Z.eqb Pos.eqb]; f_equal; rewrite <- stl_bytes.
  - change (8 * 1) with (8 * Z.of_nat 1). rewrite le_bytes_mod by lia.
    reflexivity.
  - change (Z.to_nat 2) with 2%nat. rewrite <- stw_bytes. reflexivity.
  - change (Z.to_nat 4) with 4%nat. rewrite <- stl_bytes. reflexivity.
Qed.

Lemma encode_write_request_length address size value :
  valid_size size →
  length (encode_write_request address size value) = Z.to_nat (6 + size).
Proof. intros [-> | [-> | ->]]; reflexivity. Qed.

Lemma read_convert_invalid buf size :
  ¬ valid_size size → read_convert buf size = None.
Proof.
  intros Hsize. unfold read_convert, valid_size in *.
  destruct (Z.eqb_spec size 1); [tauto|].
  destruct (Z.eqb_spec size 2); [tauto|].
  destruct (Z.eqb_spec size 4); [tauto|]. reflexivity.
Qed.

Lemma read_convert_valid buf size :
  valid_size size → read_convert buf size ≠ None.
Proof. by intros [-> | [-> | ->]]. Qed.

Lemma read_convert_le_bytes size v pad :
  valid_size size →
  read_convert (le_bytes (Z.to_nat size) v ++ pad) size
  = Some (v mod 2 ^ (8 * size)).
Proof.
  intros [-> | [-> | ->]]; unfold read_convert; cbn [Z.eqb Pos.eqb].
  - reflexivity.
  - change (Z.to_nat 2) with 2%nat. cbn [le_bytes app].
    rewrite lduw_le_p_value by (apply Z.mod_pos_bound; lia).
    f_equal. exact (le_value_le_bytes 2 v).
  - change (Z.to_nat 4) with 4%nat. cbn [le_bytes app].
    rewrite ldl_le_p_value by (apply Z.mod_pos_bound; lia).
    f_equal. exact (le_value_le_bytes 4 v).
Qed.

(** What a [write_all] and a [read_all] leave behind. *)
Lemma sent_calls c bytes :
  be_calls (sent c bytes) = be_calls c ++ [FeWriteAll bytes].
Proof.
  unfold sent, fe_write_all. cbn [snd be_calls].
  by rewrite Nat2Z.id, firstn_all.
Qed.

Lemma sent_tx c bytes :
  be_tx (sent c bytes) = be_tx c ++ take (be_room c) bytes.
Proof.
  unfold sent, fe_write_all. cbn [snd be_tx].
  rewrite Nat2Z.id, firstn_all. f_equal.
  destruct (Nat.le_ge_cases (length bytes) (be_room c)).
  - rewrite Nat.min_l, !take_ge by lia. reflexivity.
  - rewrite Nat.min_r by lia. reflexivity.
Qed.

Lemma sent_rx c bytes : be_rx (sent c bytes) = be_rx c.
Proof. reflexivity. Qed.

Lemma received_calls c len :
  be_calls (received c len) = be_calls c ++ [FeReadAll len].
Proof. reflexivity. Qed.

Lemma received_tx c len : be_tx (received c len) = be_tx c.
Proof. reflexivity. Qed.

(* ===================================================================== *)
(** ** The paths through an access *)
(* ===================================================================== *)

Section ReadPaths.
Variables (offset size : Z) (w : World).
Hypothesis Hidle : idle w.

(** The request does not go out whole: [goto unlock] after the report. *)
Lemma read_short_write :
  (be_room (transport w) < 6)%nat →
  mmio_sockdev_read offset size w
  = Done 0 (reporting ("mmio-sockdev: failed to send read request"%string, [])
              (with_chr (sent (transport w) (read_request offset size)) w)).
Proof.
  intros Hroom. open_world w Hidle. exec.
  cbv [transport chr dev be_room] in Hroom.
  rewrite ?take_read_request, ?read_request_length.
  rewrite Nat.min_r by lia.
  unfold uint64_t, to_unsigned. rewrite Z.mod_small by lia.
  destruct (Z.eqb_spec (Z.of_nat room) 6); [lia|]. reflexivity.
Qed.

(** The request went out, the response is short and fits the buffer. *)
Lemma read_short_read :
  (6 ≤ be_room (transport w))%nat →
  Z.of_nat (length (be_rx (transport w))) < size →
  (length (be_rx (transport w)) ≤ 8)%nat →
  mmio_sockdev_read offset size w
  = Done 0 (reporting ("mmio-sockdev: failed to read response"%string, [])
              (with_chr
                 (received (sent (transport w) (read_request offset size))
                    (to_int size)) w)).
Proof.
  intros Hroom Hshort Hfit. open_world w Hidle. exec.
  cbv [transport chr dev be_room be_rx] in Hroom, Hshort, Hfit.
  rewrite ?take_read_request, ?read_request_length.
  rewrite (Nat.min_l 6 room) by lia.
  change (negb (uint64_t (Z.of_nat 6) =? 6)) with false. cbv beta iota.
  set (n := (Z.to_nat (to_int size) `min` length rx)%nat).
  assert (Hn : (n ≤ length rx)%nat) by (subst n; lia).
  rewrite length_take, (Nat.min_l n) by lia.
  change (length (replicate 8 0)) with 8%nat.
  destruct (Nat.ltb_spec 8 n); [lia|].
  assert (Hne : uint32_t (Z.of_nat n) ≠ size).
  { unfold uint32_t, to_unsigned.
    pose proof (Z.mod_le (Z.of_nat n) (2 ^ 32)). lia. }
  destruct (Z.eqb_spec (uint32_t (Z.of_nat n)) size); [done|]. reflexivity.
Qed.

(** Request and response both whole: the [switch] decides. *)
Lemma read_full_response :
  (6 ≤ be_room (transport w))%nat →
  0 ≤ size ≤ 8 →
  size ≤ Z.of_nat (length (be_rx (transport w))) →
  mmio_sockdev_read offset size w
  = let w' := with_chr
                (received (sent (transport w) (read_request offset size)) size)
                w in
    match read_convert (take (Z.to_nat size) (be_rx (transport w))
                        ++ replicate (8 - Z.to_nat size) 0) size with
    | Some v => Done v w'
    | None => Done 0 (reporting ("mmio-sockdev: invalid read size %u"%string,
                                 [size]) w')
    end.
Proof.
  intros Hroom Hsize Hfull. open_world w Hidle. exec.
  cbv [transport chr dev be_room be_rx] in Hroom, Hfull.
  rewrite ?take_read_request, ?read_request_length.
  rewrite (Nat.min_l 6 room) by lia.
  change (negb (uint64_t (Z.of_nat 6) =? 6)) with false. cbv beta iota.
  rewrite to_int_small by lia.
  rewrite (Nat.min_l (Z.to_nat size)) by lia.
  rewrite length_take, (Nat.min_l (Z.to_nat size)) by lia.
  change (length (replicate 8 0)) with 8%nat.
  destruct (Nat.ltb_spec 8 (Z.to_nat size)); [lia|].
  rewrite Z2Nat.id by lia. unfold uint32_t at 1, to_unsigned.
  rewrite Z.mod_small by lia. rewrite Z.eqb_refl. cbn [negb].
  rewrite drop_replicate.
  destruct (read_convert _ size); reflexivity.
Qed.

(** More than eight bytes arrive for [buf]. *)
Lemma read_overrun :
  (6 ≤ be_room (transport w))%nat →
  (8 < Z.to_nat (to_int size) `min` length (be_rx (transport w)))%nat →
  mmio_sockdev_read offset size w = Fault BufferOverrun.
Proof.
  intros Hroom Hover. open_world w Hidle. exec.
  cbv [transport chr dev be_room be_rx] in Hroom, Hover.
  rewrite ?take_read_request, ?read_request_length.
  rewrite (Nat.min_l 6 room) by lia.
  change (negb (uint64_t (Z.of_nat 6) =? 6)) with false. cbv beta iota.
  rewrite length_take, (Nat.min_l (_ `min` _)) by lia.
  change (length (replicate 8 0)) with 8%nat.
  destruct (Nat.ltb_spec 8 (Z.to_nat (to_int size) `min` length rx)); [|lia].
  reflexivity.
Qed.
End ReadPaths.

Section WritePaths.
Variables (offset value size : Z) (w : World).
Hypothesis Hidle : idle w.

(** The [default] branch: report and [goto unlock]. *)
Lemma write_invalid :
  ¬ valid_size size →
  mmio_sockdev_write offset value size w
  = Done tt (reporting ("mmio-sockdev: invalid write size %u"%string, [size])
               w).
Proof.
  intros Hsize. unfold mmio_sockdev_write.
  rewrite write_data_invalid by done.
  open_world w Hidle. reflexivity.
Qed.

(** A valid size: one [write_all] of the packet, a report when short. *)
Lemma write_valid :
  valid_size size →
  mmio_sockdev_write offset value size w
  = let pkt := encode_write_request (uint32_t offset) size value in
    let w' := with_chr (sent (transport w) pkt) w in
    Done tt (if (length pkt <=? be_room (transport w))%nat then w'
             else reporting
                    ("mmio-sockdev: failed to send write request"%string, [])
                    w').
Proof.
  intros Hsize. unfold mmio_sockdev_write.
  rewrite write_data_valid by done.
  pose proof (encode_write_request_length (uint32_t offset) size value Hsize)
    as Hlen.
  assert (0 ≤ size ≤ 4) by (unfold valid_size in Hsize; lia).
  rewrite to_int_small by lia.
  open_world w Hidle. exec.
  rewrite <- Hlen, Nat2Z.id, take_app_length, firstn_all.
  set (pkt := encode_write_request (uint32_t offset) size value) in *.
  destruct (Nat.leb_spec (length pkt) room).
  - rewrite Nat.min_l by lia.
    replace (Z.of_nat (length pkt)) with (6 + size) by lia.
    rewrite Z.eqb_refl, firstn_all. reflexivity.
  - rewrite Nat.min_r by lia.
    destruct (Z.eqb_spec (Z.of_nat room) (6 + size)); [lia|]. reflexivity.
Qed.
End WritePaths.

(* ===================================================================== *)
(** ** An idle device serves the next access *)
(* ===================================================================== *)

Lemma valid_size_bounds size : valid_size size → 1 ≤ size ≤ 4.
Proof. unfold valid_size. lia. Qed.

(** A read against a transport that takes the request and supplies the
    little-endian encoding of [v] returns [v] modulo the access width. *)
Lemma read_returns_decoded offset size v pad w :
  idle w → valid_size size →
  (6 ≤ be_room (transport w))%nat →
  be_rx (transport w) = le_bytes (Z.to_nat size) v ++ pad →
  mmio_sockdev_read offset size w
  = Done (v mod 2 ^ (8 * size))
      (with_chr
         (received (sent (transport w) (read_request offset size)) size) w).
Proof.
  intros Hidle Hsize Hroom Hrx.
  pose proof (valid_size_bounds size Hsize) as Hb.
  rewrite read_full_response; try done; try lia.
  - rewrite Hrx.
    rewrite take_app_length' by (by rewrite le_bytes_length).
    rewrite read_convert_le_bytes by done. reflexivity.
  - rewrite Hrx, length_app, le_bytes_length. lia.
Qed.

Lemma idle_usable w : idle w → usable w.
Proof.
  intros Hidle c offset size v pad Hsize Hroom Hrx.
  pose proof (valid_size_bounds size Hsize) as Hb. split.
  - eexists. split.
    + apply read_returns_decoded with (pad := pad); try done.
      change (transport (with_chr c w)) with c. lia.
    + reflexivity.
  - eexists. split; [apply write_valid; done|].
    change (transport (with_chr c w)) with c.
    rewrite encode_write_request_length by done.
    destruct (Nat.leb_spec (Z.to_nat (6 + size)) (be_room c)); [|lia].
    split; [|reflexivity].
    cbv zeta. change (transport (with_chr ?x _)) with x.
    rewrite sent_tx, take_ge; [reflexivity|].
    rewrite encode_write_request_length by done. lia.
Qed.

(* ===================================================================== *)
(** ** Write accesses *)
(* ===================================================================== *)

(** C2. For every offset, every size in {1,2,4} and every value, a write
    access hands the transport exactly one buffer of 6+size bytes: ['W'],
    the offset as a 32-bit little-endian address, the size, and the value
    truncated to [size] bytes in little-endian order; the peer observes these
    bytes (as many of them as it takes) and nothing else. *)
Theorem write_sends_encoded_request (offset value size : Z) (w : World) :
  idle w → valid_size size →
  let pkt := [87] ++ le_bytes 4 (uint32_t offset) ++ [size]
             ++ le_bytes (Z.to_nat size) (value mod 2 ^ (8 * size)) in
  ∃ w', mmio_sockdev_write offset value size w = Done tt w'
    ∧ be_calls (transport w') = be_calls (transport w) ++ [FeWriteAll pkt]
    ∧ Z.of_nat (length pkt) = 6 + size
    ∧ be_tx (transport w')
      = be_tx (transport w) ++ take (be_room (transport w)) pkt.
Proof.
  intros Hidle Hsize pkt.
  change pkt with (encode_write_request (uint32_t offset) size value).
  clear pkt. set (pkt := encode_write_request (uint32_t offset) size value).
  pose proof (encode_write_request_length (uint32_t offset) size value Hsize)
    as Hlen.
  pose proof (valid_size_bounds size Hsize) as Hb.
  eexists. split; [apply write_valid; done|]. cbv zeta. fold pkt.
  assert (Hchr : ∀ b : bool,
    transport (if b then with_chr (sent (transport w) pkt) w
               else reporting
                      ("mmio-sockdev: failed to send write request"%string, [])
                      (with_chr (sent (transport w) pkt) w))
    = sent (transport w) pkt) by (by intros []).
  rewrite Hchr, sent_calls, sent_tx. fold pkt in Hlen. repeat split; lia.
Qed.

(** The instance the specification singles out. *)
Lemma write_sends_encoded_request_witness :
  ∃ w', mmio_sockdev_write 0 66 1 (realised_with (backend_with 100 [])) = Done tt w'
    ∧ be_calls (transport w') = [FeWriteAll [87; 0; 0; 0; 0; 1; 66]]
    ∧ be_tx (transport w') = [87; 0; 0; 0; 0; 1; 66].
Proof.
  destruct (write_sends_encoded_request 0 66 1
              (realised_with (backend_with 100 [])))
    as (w' & Hrun & Hcalls & _ & Htx);
    [reflexivity | left; reflexivity |].
  exists w'. split; [exact Hrun|]. split; [exact Hcalls | exact Htx].
Defined.

(** C6. For every offset and value and every size outside {1,2,4}, a write
    access reports the invalid size and returns with the device, and so its
    transport, exactly as it was: nothing was written. *)
Theorem write_invalid_size_untouched (offset value size : Z) (w : World) :
  idle w → ¬ valid_size size →
  ∃ w', mmio_sockdev_write offset value size w = Done tt w'
    ∧ dev w' = dev w
    ∧ diag w' = diag w ++ [("mmio-sockdev: invalid write size %u"%string, [size])].
Proof.
  intros Hidle Hsize. eexists. split; [apply write_invalid; done|].
  split; reflexivity.
Qed.

Lemma write_invalid_size_untouched_witness :
  ∃ w', mmio_sockdev_write 0 66 3 (realised_with (backend_with 100 [])) = Done tt w'
    ∧ dev w' = dev (realised_with (backend_with 100 []))
    ∧ diag w' = [("mmio-sockdev: invalid write size %u"%string, [3])].
Proof.
  apply (write_invalid_size_untouched 0 66 3 (realised_with (backend_with 100 []))).
  - reflexivity.
  - unfold valid_size. lia.
Defined.

(** C7. For every offset, size and value, a write access returns without a
    single [read_all] on the transport, and the bytes the peer has supplied
    stay where they were, whether the request went out whole, went out
    short, or was never sent. *)
Theorem write_never_reads (offset value size : Z) (w : World) :
  idle w →
  ∃ w' calls, mmio_sockdev_write offset value size w = Done tt w'
    ∧ be_calls (transport w') = be_calls (transport w) ++ calls
    ∧ (∀ len, FeReadAll len ∉ calls)
    ∧ be_rx (transport w') = be_rx (transport w).
Proof.
  intros Hidle.
  destruct (decide (size = 1 ∨ size = 2 ∨ size = 4)) as [Hsize | Hsize].
  - eexists. exists [FeWriteAll (encode_write_request (uint32_t offset) size value)].
    split; [apply write_valid; done|]. cbv zeta.
    destruct (_ <=? _)%nat;
      change (transport (reporting _ ?x)) with (transport x);
      change (transport (with_chr ?c _)) with c;
      rewrite sent_calls, sent_rx; (split; [done|]); (split; [|done]);
      intros len [?|?%elem_of_nil]%elem_of_cons; done.
  - eexists. exists []. split; [apply write_invalid; done|].
    change (transport (reporting _ ?x)) with (transport x).
    rewrite app_nil_r. split; [done|]. split; [|done].
    intros len. apply not_elem_of_nil.
Qed.

Lemma write_never_reads_witness :
  ∃ w' calls,
    mmio_sockdev_write 8 1 4 (realised_with (backend_with 3 [7; 7])) = Done tt w'
    ∧ be_calls (transport w') = [] ++ calls
    ∧ (∀ len, FeReadAll len ∉ calls)
    ∧ be_rx (transport w') = [7; 7].
Proof.
  apply (write_never_reads 8 1 4 (realised_with (backend_with 3 [7; 7]))).
  reflexivity.
Defined.

(* ===================================================================== *)
(** ** Read accesses *)
(* ===================================================================== *)

(** C1, as the code behaves.  For a size outside {1,2,4} (and within the
    eight bytes of [buf]) on a transport that takes the request and supplies
    [size] bytes, a read access first writes the 6-byte request, then reads
    [size] bytes, and only then reports the invalid size and returns 0: the
    size is checked after the transport I/O, not before it. *)
Theorem read_invalid_size_after_io (offset size : Z) (w : World) :
  idle w → ¬ valid_size size → 0 ≤ size ≤ 8 →
  (6 ≤ be_room (transport w))%nat →
  size ≤ Z.of_nat (length (be_rx (transport w))) →
  let req := [82] ++ le_bytes 4 (uint32_t offset) ++ [size] in
  ∃ w', mmio_sockdev_read offset size w = Done 0 w'
    ∧ be_calls (transport w')
      = be_calls (transport w) ++ [FeWriteAll req; FeReadAll size]
    ∧ be_tx (transport w') = be_tx (transport w) ++ req
    ∧ diag w' = diag w ++ [("mmio-sockdev: invalid read size %u"%string, [size])].
Proof.
  intros Hidle Hsize Hb Hroom Hrx req.
  change req with (encode_read_request (uint32_t offset) size). clear req.
  rewrite <- (read_request_encodes_byte offset size) by lia.
  eexists. split.
  - rewrite read_full_response, read_convert_invalid by done. reflexivity.
  - change (transport (reporting _ (with_chr ?c _))) with c.
    change (diag (reporting ?r (with_chr _ ?x))) with (diag x ++ [r]).
    rewrite received_calls, received_tx, sent_calls, sent_tx, <- app_assoc.
    rewrite take_ge by (rewrite read_request_length; lia). done.
Qed.

Lemma read_invalid_size_after_io_witness :
  ∃ w', mmio_sockdev_read 0 3 (realised_with (backend_with 100 [1; 2; 3]))
        = Done 0 w'
    ∧ be_calls (transport w') = [FeWriteAll [82; 0; 0; 0; 0; 3]; FeReadAll 3]
    ∧ be_tx (transport w') = [82; 0; 0; 0; 0; 3]
    ∧ diag w' = [("mmio-sockdev: invalid read size %u"%string, [3])].
Proof.
  apply (read_invalid_size_after_io 0 3
           (realised_with (backend_with 100 [1; 2; 3]))).
  - reflexivity.
  - unfold valid_size. lia.
  - lia.
  - simpl. lia.
  - simpl. lia.
Defined.

(** C3. For every offset and every size in {1,2,4}, a read access hands the
    transport exactly one buffer to write, of 6 bytes whatever the size:
    ['R'], the offset as a 32-bit little-endian address, the size; the only
    other call it may make is the [read_all] of the response. *)
Theorem read_sends_request (offset size : Z) (w : World) :
  idle w → valid_size size →
  let req := [82] ++ le_bytes 4 (uint32_t offset) ++ [size] in
  ∃ v w' rest, mmio_sockdev_read offset size w = Done v w'
    ∧ be_calls (transport w') = be_calls (transport w) ++ FeWriteAll req :: rest
    ∧ (rest = [] ∨ rest = [FeReadAll size])
    ∧ length req = 6%nat
    ∧ be_tx (transport w')
      = be_tx (transport w) ++ take (be_room (transport w)) req.
Proof.
  intros Hidle Hsize req.
  pose proof (valid_size_bounds size Hsize) as Hb.
  change req with (encode_read_request (uint32_t offset) size). clear req.
  rewrite <- (read_request_encodes_byte offset size) by lia.
  destruct (Nat.lt_ge_cases (be_room (transport w)) 6) as [Hroom | Hroom].
  { eexists _, _, []. split; [apply read_short_write; done|].
    change (transport (reporting _ (with_chr ?c _))) with c.
    rewrite sent_calls, sent_tx. auto. }
  destruct (Z.lt_ge_cases (Z.of_nat (length (be_rx (transport w)))) size)
    as [Hrx | Hrx].
  - eexists _, _, [FeReadAll size].
    split; [apply read_short_read; try done; lia|].
    rewrite to_int_small by lia.
    change (transport (reporting _ (with_chr ?c _))) with c.
    rewrite received_calls, received_tx, sent_calls, sent_tx, <- app_assoc.
    auto.
  - pose proof (read_full_response offset size w Hidle Hroom) as Hrun.
    cbv zeta in Hrun.
    destruct (read_convert _ size) as [v|] eqn:Hconv.
    2: { exfalso. unfold read_convert in Hconv.
         destruct Hsize as [-> | [-> | ->]]; discriminate Hconv. }
    eexists _, _, [FeReadAll size]. split; [apply Hrun; lia|].
    change (transport (with_chr ?c _)) with c.
    rewrite received_calls, received_tx, sent_calls, sent_tx, <- app_assoc.
    auto.
Qed.

Lemma read_sends_request_witness :
  ∃ v w' rest,
    mmio_sockdev_read 4660 2 (realised_with (backend_with 100 [65; 66])) = Done v w'
    ∧ be_calls (transport w') = [] ++ FeWriteAll [82; 52; 18; 0; 0; 2] :: rest
    ∧ (rest = [] ∨ rest = [FeReadAll 2])
    ∧ length [82; 52; 18; 0; 0; 2] = 6%nat
    ∧ be_tx (transport w') = [] ++ take 100 [82; 52; 18; 0; 0; 2].
Proof.
  apply (read_sends_request 4660 2 (realised_with (backend_with 100 [65; 66]))).
  - reflexivity.
  - right; left; reflexivity.
Defined.

(** C4. For every size in {1,2,4} and every value [v], the conversion at the
    end of a read access, applied to the little-endian encoding of [v] in
    [size] bytes (whatever follows it in the buffer), yields [v] modulo
    2^(8*size); and so does the whole access against a peer that answers
    with that encoding. *)
Theorem decode_encode_roundtrip (size v : Z) :
  valid_size size →
  (∀ pad, read_convert (le_bytes (Z.to_nat size) v ++ pad) size
          = Some (v mod 2 ^ (8 * size)))
  ∧ (∀ offset w pad,
       idle w → (6 ≤ be_room (transport w))%nat →
       be_rx (transport w) = le_bytes (Z.to_nat size) v ++ pad →
       ∃ w', mmio_sockdev_read offset size w = Done (v mod 2 ^ (8 * size)) w').
Proof.
  intros Hsize. split.
  - intros pad. by apply read_convert_le_bytes.
  - intros offset w pad Hidle Hroom Hrx. eexists.
    by apply read_returns_decoded with (pad := pad).
Qed.

Lemma decode_encode_roundtrip_witness :
  read_convert ([85; 68; 51; 34] ++ [0; 0; 0; 0]) 4 = Some 573785173
  ∧ ∃ w', mmio_sockdev_read 4 4
            (realised_with (backend_with 100 [85; 68; 51; 34; 9])) = Done 573785173 w'.
Proof.
  destruct (decode_encode_roundtrip 4 73588229205) as [Hconv Hread];
    [right; right; reflexivity|].
  split.
  - exact (Hconv [0; 0; 0; 0]).
  - apply (Hread 4 (realised_with (backend_with 100 [85; 68; 51; 34; 9])) [9]).
    + reflexivity.
    + simpl. lia.
    + reflexivity.
Defined.

(** The end-to-end example of the specification: a peer that answers the
    read of one byte at offset 0 with 0x41 makes the access return 0x41. *)
Example read_one_byte_end_to_end :
  ∃ w', mmio_sockdev_read 0 1 (realised_with (backend_with 100 [65]))
        = Done 65 w'
    ∧ be_tx (transport w') = [82; 0; 0; 0; 0; 1]
    ∧ be_rx (transport w') = [] ∧ diag w' = [].
Proof. eexists. split; [vm_compute; reflexivity|]. done. Qed.

(** C5. For every offset and size: if fewer than the 6 bytes of the request
    go out, a read access reports the failed send, returns 0 and makes no
    [read_all]; if the request went out whole and the transport supplies
    fewer than [size] bytes, it reports the failed read and returns 0.
    Either way the lock is free again and the next access succeeds against
    a healthy transport.  The failed send is for any size at all; the
    failed read for any size that fits the eight bytes of [buf], so for
    every size the region lets through (it declares 1 to 4). *)
Theorem read_transport_failure (offset size : Z) (w : World) :
  idle w →
  ((be_room (transport w) < 6)%nat →
   ∃ w', mmio_sockdev_read offset size w = Done 0 w'
     ∧ diag w' = diag w
                 ++ [("mmio-sockdev: failed to send read request"%string, [])]
     ∧ be_calls (transport w')
       = be_calls (transport w) ++ [FeWriteAll (read_request offset size)]
     ∧ be_rx (transport w') = be_rx (transport w)
     ∧ idle w' ∧ usable w')
  ∧ (size ≤ 8 →
     (6 ≤ be_room (transport w))%nat →
     Z.of_nat (length (be_rx (transport w))) < size →
     ∃ w', mmio_sockdev_read offset size w = Done 0 w'
       ∧ diag w' = diag w
                   ++ [("mmio-sockdev: failed to read response"%string, [])]
       ∧ be_calls (transport w')
         = be_calls (transport w)
           ++ [FeWriteAll (read_request offset size); FeReadAll size]
       ∧ idle w' ∧ usable w').
Proof.
  intros Hidle. split.
  - intros Hroom. eexists. split; [apply read_short_write; done|].
    change (transport (reporting _ (with_chr ?c _))) with c.
    rewrite sent_calls, sent_rx.
    split; [reflexivity|]. split; [reflexivity|]. split; [reflexivity|].
    split; [exact Hidle | apply idle_usable; exact Hidle].
  - intros Hsize Hroom Hshort. eexists.
    split; [apply read_short_read; try done; lia|].
    split; [reflexivity|].
    change (transport (reporting _ (with_chr ?c _))) with c.
    rewrite received_calls, sent_calls, <- app_assoc.
    rewrite to_int_small by lia.
    split; [reflexivity|].
    split; [exact Hidle | apply idle_usable; exact Hidle].
Qed.

Lemma read_transport_failure_witness :
  (∃ w', mmio_sockdev_read 4 4 (realised_with (backend_with 5 [])) = Done 0 w'
     ∧ diag w' = [("mmio-sockdev: failed to send read request"%string, [])]
     ∧ be_calls (transport w') = [FeWriteAll [82; 4; 0; 0; 0; 4]]
     ∧ be_rx (transport w') = []
     ∧ idle w' ∧ usable w')
  ∧ (∃ w', mmio_sockdev_read 4 4 (realised_with (backend_with 100 [1; 2; 3]))
           = Done 0 w'
       ∧ diag w' = [("mmio-sockdev: failed to read response"%string, [])]
       ∧ be_calls (transport w')
         = [FeWriteAll [82; 4; 0; 0; 0; 4]; FeReadAll 4]
       ∧ idle w' ∧ usable w').
Proof.
  split.
  - apply (read_transport_failure 4 4 (realised_with (backend_with 5 []))).
    + reflexivity.
    + simpl. lia.
  - apply (read_transport_failure 4 4 (realised_with (backend_with 100 [1; 2; 3]))).
    + reflexivity.
    + lia.
    + simpl. lia.
    + simpl. lia.
Defined.

(** The request of a read of a valid size as the transport gets it. *)
Lemma read_request_on_wire offset size w :
  idle w → valid_size size →
  ∃ v w' rest, mmio_sockdev_read offset size w = Done v w'
    ∧ be_calls (transport w')
      = be_calls (transport w) ++ FeWriteAll (read_request offset size) :: rest
    ∧ (rest = [] ∨ rest = [FeReadAll size])
    ∧ be_tx (transport w')
      = be_tx (transport w)
        ++ take (be_room (transport w)) (read_request offset size).
Proof.
  intros Hidle Hsize.
  pose proof (valid_size_bounds size Hsize) as Hb.
  destruct (Nat.lt_ge_cases (be_room (transport w)) 6) as [Hroom | Hroom].
  { eexists _, _, []. split; [apply read_short_write; done|].
    change (transport (reporting _ (with_chr ?c _))) with c.
    rewrite sent_calls, sent_tx. auto. }
  destruct (Z.lt_ge_cases (Z.of_nat (length (be_rx (transport w)))) size)
    as [Hrx | Hrx].
  - eexists _, _, [FeReadAll size].
    split; [apply read_short_read; try done; lia|].
    rewrite to_int_small by lia.
    change (transport (reporting _ (with_chr ?c _))) with c.
    rewrite received_calls, received_tx, sent_calls, sent_tx, <- app_assoc.
    auto.
  - pose proof (read_full_response offset size w Hidle Hroom) as Hrun.
    cbv zeta in Hrun.
    destruct (read_convert _ size) as [v|] eqn:Hconv.
    2: { by apply read_convert_valid in Hconv. }
    eexists _, _, [FeReadAll size]. split; [apply Hrun; lia|].
    change (transport (with_chr ?c _)) with c.
    rewrite received_calls, received_tx, sent_calls, sent_tx, <- app_assoc.
    auto.
Qed.

(** C10. For every offset, the request a read access and the packet a
    write access hand to the transport carry, as bytes 1 to 4, the offset
    reduced modulo 2^32 in little-endian order; and offsets that differ by
    a multiple of 2^32 make the same access, so put the same bytes on the
    wire. *)
Theorem address_field_truncated (offset size value k : Z) (w : World) :
  idle w → valid_size size →
  (∃ v w' req rest,
      mmio_sockdev_read offset size w = Done v w'
      ∧ be_calls (transport w')
        = be_calls (transport w) ++ FeWriteAll req :: rest
      ∧ (rest = [] ∨ rest = [FeReadAll size])
      ∧ take 4 (drop 1 req) = le_bytes 4 (offset mod 2 ^ 32)
      ∧ be_tx (transport w')
        = be_tx (transport w) ++ take (be_room (transport w)) req)
  ∧ (∃ w' pkt,
        mmio_sockdev_write offset value size w = Done tt w'
        ∧ be_calls (transport w')
          = be_calls (transport w) ++ [FeWriteAll pkt]
        ∧ take 4 (drop 1 pkt) = le_bytes 4 (offset mod 2 ^ 32)
        ∧ be_tx (transport w')
          = be_tx (transport w) ++ take (be_room (transport w)) pkt)
  ∧ mmio_sockdev_read (offset + k * 2 ^ 32) size w
    = mmio_sockdev_read offset size w
  ∧ mmio_sockdev_write (offset + k * 2 ^ 32) value size w
    = mmio_sockdev_write offset value size w.
Proof.
  intros Hidle Hsize. split; [|split; [|split]].
  - destruct (read_request_on_wire offset size w Hidle Hsize)
      as (v & w' & rest & Hrun & Hcalls & Hrest & Htx).
    exists v, w', (read_request offset size), rest.
    split; [exact Hrun|]. split; [exact Hcalls|]. split; [exact Hrest|].
    split; [|exact Htx]. rewrite <- stl_bytes. reflexivity.
  - eexists _, (encode_write_request (uint32_t offset) size value).
    split; [apply write_valid; done|]. cbv zeta.
    assert (Hchr : ∀ b : bool,
      transport
        (if b
         then with_chr
                (sent (transport w)
                   (encode_write_request (uint32_t offset) size value)) w
         else reporting
                ("mmio-sockdev: failed to send write request"%string, [])
                (with_chr
                   (sent (transport w)
                      (encode_write_request (uint32_t offset) size value)) w))
      = sent (transport w) (encode_write_request (uint32_t offset) size value))
      by (by intros []).
    rewrite Hchr, sent_calls, sent_tx.
    split; [reflexivity|]. split; [|reflexivity].
    unfold encode_write_request. change (drop 1 ([87] ++ ?l)) with l.
    rewrite take_app_length' by (by rewrite le_bytes_length). reflexivity.
  - unfold mmio_sockdev_read, read_request.
    rewrite uint32_t_period. reflexivity.
  - unfold mmio_sockdev_write, write_header.
    rewrite uint32_t_period. reflexivity.
Qed.

Lemma address_field_truncated_witness :
  (∃ v w' req rest,
      mmio_sockdev_read 4294967304 2 (realised_with (backend_with 100 [1; 2]))
      = Done v w'
      ∧ be_calls (transport w') = [] ++ FeWriteAll req :: rest
      ∧ (rest = [] ∨ rest = [FeReadAll 2])
      ∧ take 4 (drop 1 req) = [8; 0; 0; 0]
      ∧ be_tx (transport w') = [] ++ take 100 req)
  ∧ (∃ w' pkt,
        mmio_sockdev_write 4294967304 66 2
          (realised_with (backend_with 100 [1; 2]))
        = Done tt w'
        ∧ be_calls (transport w') = [] ++ [FeWriteAll pkt]
        ∧ take 4 (drop 1 pkt) = [8; 0; 0; 0]
        ∧ be_tx (transport w') = [] ++ take 100 pkt)
  ∧ mmio_sockdev_read (4294967304 + 3 * 2 ^ 32) 2
      (realised_with (backend_with 100 [1; 2]))
    = mmio_sockdev_read 4294967304 2 (realised_with (backend_with 100 [1; 2]))
  ∧ mmio_sockdev_write (4294967304 + 3 * 2 ^ 32) 66 2
      (realised_with (backend_with 100 [1; 2]))
    = mmio_sockdev_write 4294967304 66 2
        (realised_with (backend_with 100 [1; 2])).
Proof.
  apply (address_field_truncated 4294967304 2 66 3
           (realised_with (backend_with 100 [1; 2]))).
  - reflexivity.
  - right; left; reflexivity.
Defined.

(* ===================================================================== *)
(** ** Activation *)
(* ===================================================================== *)

(** C8. When the backend is not connected, activation hands back the error
    and leaves the instance exactly as it was: the lock is not initialised,
    no region is created, exported or mapped. *)
Theorem realize_unconnected_fails (s : MMIOSockDevState) :
  qemu_chr_fe_backend_connected s = false →
  mmio_sockdev_realize s
  = (Some ("mmio-sockdev: chardev not connected"%string, []), s).
Proof.
  intros Hconn. unfold mmio_sockdev_realize. rewrite Hconn. reflexivity.
Qed.

Lemma realize_unconnected_fails_witness :
  mmio_sockdev_realize unrealised_unconnected
  = (Some ("mmio-sockdev: chardev not connected"%string, []),
     unrealised_unconnected).
Proof. apply (realize_unconnected_fails unrealised_unconnected). reflexivity. Defined.

(** With a connected backend activation goes through: the lock is
    initialised, the 4 KiB region created and exported, and mapped when a
    base address is set. *)
Lemma realize_connected (s : MMIOSockDevState) :
  qemu_chr_fe_backend_connected s = true →
  ∃ s', mmio_sockdev_realize s = (None, s')
    ∧ lock s' = MutexFree
    ∧ mmio s' = Some mmio_sockdev_region
    ∧ sb_mmio (parent_obj s') = sb_mmio (parent_obj s) ++ [mmio_sockdev_region]
    ∧ chr s' = chr s.
Proof.
  intros Hconn. unfold mmio_sockdev_realize. rewrite Hconn. cbn [negb].
  eexists. split; [reflexivity|]. cbn [lock mmio parent_obj chr].
  destruct (negb (base_addr s =? 0)); done.
Qed.

(** A device that was never activated serves no access. *)
Lemma unrealised_serves_nothing (offset size value : Z) (w : World) :
  lock (dev w) = MutexUninit →
  mmio_sockdev_read offset size w = Fault MutexNotInitialized
  ∧ mmio_sockdev_write offset value size w = Fault MutexNotInitialized.
Proof.
  intros Hlock. unfold mmio_sockdev_read, mmio_sockdev_write.
  cbv [mbind M_bind qemu_mutex_lock]. rewrite Hlock. done.
Qed.

(** While the lock is held an access does not return: it waits at the
    lock. *)
Lemma held_lock_blocks (offset size value : Z) (w : World) :
  lock (dev w) = MutexHeld →
  mmio_sockdev_read offset size w = Fault MutexBlocked
  ∧ mmio_sockdev_write offset value size w = Fault MutexBlocked.
Proof.
  intros Hlock. unfold mmio_sockdev_read, mmio_sockdev_write.
  cbv [mbind M_bind qemu_mutex_lock]. rewrite Hlock. done.
Qed.

(* ===================================================================== *)
(** ** What an access leaves behind when it returns *)
(* ===================================================================== *)

Lemma sent_whole c bytes :
  (length bytes ≤ be_room c)%nat →
  sent c bytes
  = mkCharBackend (be_connected c) (be_room c - length bytes)
      (be_tx c ++ bytes) (be_rx c) (be_calls c ++ [FeWriteAll bytes]).
Proof.
  intros Hroom. unfold sent, fe_write_all. cbn [snd].
  rewrite Nat2Z.id, firstn_all, Nat.min_l, firstn_all by lia. reflexivity.
Qed.

Lemma sent_short c bytes :
  (be_room c < length bytes)%nat →
  sent c bytes
  = mkCharBackend (be_connected c) 0
      (be_tx c ++ take (be_room c) bytes) (be_rx c)
      (be_calls c ++ [FeWriteAll bytes]).
Proof.
  intros Hroom. unfold sent, fe_write_all. cbn [snd].
  rewrite Nat2Z.id, firstn_all, Nat.min_r by lia.
  rewrite Nat.sub_diag. reflexivity.
Qed.

Lemma received_whole c len :
  0 ≤ len ≤ Z.of_nat (length (be_rx c)) →
  received c len
  = mkCharBackend (be_connected c) (be_room c) (be_tx c)
      (drop (Z.to_nat len) (be_rx c)) (be_calls c ++ [FeReadAll len]).
Proof.
  intros Hlen. unfold received, fe_read_all. cbn [snd].
  rewrite Nat.min_l by lia. reflexivity.
Qed.

Lemma received_short c len :
  (length (be_rx c) ≤ Z.to_nat len)%nat →
  be_rx (received c len) = [] ∧ be_room (received c len) = be_room c.
Proof.
  intros Hlen. unfold received, fe_read_all. cbn [snd be_rx be_room].
  rewrite Nat.min_r by lia. split; [apply drop_all | reflexivity].
Qed.

(** The exits of a read on an idle device: the response overruns [buf], or
    the access returns through [unlock]. *)
Lemma read_exits offset size w :
  idle w →
  mmio_sockdev_read offset size w = Fault BufferOverrun
  ∨ ∃ v w', mmio_sockdev_read offset size w = Done v w'
      ∧ idle w'
      ∧ dev w' = set_chr (transport w') (dev w)
      ∧ (diag w' = diag w ∨ (v = 0 ∧ ∃ r, diag w' = diag w ++ [r])).
Proof.
  intros Hidle. open_world w Hidle. exec.
  destruct (negb (uint64_t _ =? 6)); [read_exit|]. cbv beta iota.
  destruct (_ <? _)%nat; [read_exit|]. cbv beta iota.
  destruct (negb (uint32_t _ =? size)); [read_exit|]. cbv beta iota.
  destruct (read_convert _ size); read_exit.
Qed.

(** X1. On every path on which a read returns, for whatever size and
    whatever the peer did, the lock is free again, nothing of the device
    has changed but its transport, and either nothing was reported, or one
    diagnostic was and the value returned is 0. *)
Theorem read_return_unlocks (offset size v : Z) (w w' : World) :
  idle w → mmio_sockdev_read offset size w = Done v w' →
  idle w'
  ∧ dev w' = set_chr (transport w') (dev w)
  ∧ (diag w' = diag w ∨ (v = 0 ∧ ∃ r, diag w' = diag w ++ [r])).
Proof.
  intros Hidle Hrun.
  destruct (read_exits offset size w Hidle)
    as [Hover | (v0 & w0 & Hrun0 & Hexit)].
  - rewrite Hrun in Hover. discriminate Hover.
  - rewrite Hrun in Hrun0. injection Hrun0 as <- <-. exact Hexit.
Qed.

Lemma read_return_unlocks_witness :
  ∃ v w',
    mmio_sockdev_read 4 4 (realised_with (backend_with 100 [1; 2])) = Done v w'
    ∧ idle w'
    ∧ dev w' = set_chr (transport w')
                 (dev (realised_with (backend_with 100 [1; 2])))
    ∧ (diag w' = [] ∨ (v = 0 ∧ ∃ r, diag w' = [] ++ [r])).
Proof.
  eexists _, _. split; [vm_compute; reflexivity|].
  apply (read_return_unlocks 4 4 _ (realised_with (backend_with 100 [1; 2]))).
  - reflexivity.
  - vm_compute. reflexivity.
Defined.

(** X2. On every path on which a write returns, for whatever offset, value
    and size, the lock is free again, nothing of the device has changed but
    its transport, and at most one diagnostic was reported. *)
Theorem write_return_unlocks (offset value size : Z) (w w' : World) :
  idle w → mmio_sockdev_write offset value size w = Done tt w' →
  idle w'
  ∧ dev w' = set_chr (transport w') (dev w)
  ∧ (diag w' = diag w ∨ ∃ r, diag w' = diag w ++ [r]).
Proof.
  intros Hidle Hrun.
  destruct (decide (size = 1 ∨ size = 2 ∨ size = 4)) as [Hsize | Hsize].
  - rewrite write_valid in Hrun by done. cbv zeta in Hrun.
    destruct (_ <=? _)%nat; injection Hrun as <-.
    + split; [exact Hidle|]. split; [reflexivity|]. by left.
    + split; [exact Hidle|]. split; [reflexivity|]. right. eauto.
  - rewrite write_invalid in Hrun by done. injection Hrun as <-.
    split; [exact Hidle|]. split.
    + open_world w Hidle. reflexivity.
    + right. eauto.
Qed.

Lemma write_return_unlocks_witness :
  ∃ w',
    mmio_sockdev_write 0 65 1 (realised_with (backend_with 3 [])) = Done tt w'
    ∧ idle w'
    ∧ dev w' = set_chr (transport w') (dev (realised_with (backend_with 3 [])))
    ∧ (diag w' = [] ∨ ∃ r, diag w' = [] ++ [r]).
Proof.
  eexists. split; [vm_compute; reflexivity|].
  apply (write_return_unlocks 0 65 1 (realised_with (backend_with 3 []))).
  - reflexivity.
  - vm_compute. reflexivity.
Defined.

(** X3. A write of a valid size reports a failed send exactly when the peer
    takes fewer than the 6+size bytes; the bytes it did take stay on the
    wire as a truncated request, and nothing is retried. *)
Theorem write_reports_iff_short (offset value size : Z) (w : World) :
  idle w → valid_size size →
  ∃ w' pkt, mmio_sockdev_write offset value size w = Done tt w'
    ∧ be_calls (transport w') = be_calls (transport w) ++ [FeWriteAll pkt]
    ∧ length pkt = Z.to_nat (6 + size)
    ∧ ((length pkt ≤ be_room (transport w))%nat →
       diag w' = diag w
       ∧ be_tx (transport w') = be_tx (transport w) ++ pkt
       ∧ be_room (transport w') = (be_room (transport w) - length pkt)%nat)
    ∧ ((be_room (transport w) < length pkt)%nat →
       diag w' = diag w ++ [("mmio-sockdev: failed to send write request"%string,
                             [])]
       ∧ be_tx (transport w')
         = be_tx (transport w) ++ take (be_room (transport w)) pkt
       ∧ be_room (transport w') = 0%nat).
Proof.
  intros Hidle Hsize.
  set (pkt := encode_write_request (uint32_t offset) size value).
  pose proof (encode_write_request_length (uint32_t offset) size value Hsize)
    as Hlen. fold pkt in Hlen.
  eexists _, pkt. split; [apply write_valid; done|]. cbv zeta. fold pkt.
  destruct (Nat.leb_spec (length pkt) (be_room (transport w))) as [Hroom|Hroom].
  - change (transport (with_chr ?c _)) with c.
    rewrite sent_whole by done. cbn [be_calls be_tx be_room].
    split; [done|]. split; [done|]. split; [done|]. intros ?. lia.
  - change (transport (reporting _ (with_chr ?c _))) with c.
    rewrite sent_short by done. cbn [be_calls be_tx be_room].
    split; [done|]. split; [done|]. split; [intros ?; lia|]. done.
Qed.

Lemma write_reports_iff_short_witness :
  ∃ w' pkt,
    mmio_sockdev_write 0 258 2 (realised_with (backend_with 7 [])) = Done tt w'
    ∧ be_calls (transport w') = [] ++ [FeWriteAll pkt]
    ∧ length pkt = 8%nat
    ∧ ((length pkt ≤ 7)%nat →
       diag w' = [] ∧ be_tx (transport w') = [] ++ pkt
       ∧ be_room (transport w') = (7 - length pkt)%nat)
    ∧ ((7 < length pkt)%nat →
       diag w' = [] ++ [("mmio-sockdev: failed to send write request"%string,
                         [])]
       ∧ be_tx (transport w') = [] ++ take 7 pkt
       ∧ be_room (transport w') = 0%nat).
Proof.
  apply (write_reports_iff_short 0 258 2 (realised_with (backend_with 7 []))).
  - reflexivity.
  - right; left; reflexivity.
Defined.

(* ===================================================================== *)
(** ** Exchanges on a healthy transport, one after the other *)
(* ===================================================================== *)

(** The world after a read whose request went out whole and whose response
    came in whole, and after a write whose request went out whole. *)
Lemma read_step offset size v pad w :
  idle w → valid_size size →
  (6 ≤ be_room (transport w))%nat →
  be_rx (transport w) = le_bytes (Z.to_nat size) v ++ pad →
  mmio_sockdev_read offset size w
  = Done (v mod 2 ^ (8 * size))
      (with_chr
         (mkCharBackend (be_connected (transport w))
            (be_room (transport w) - 6)
            (be_tx (transport w) ++ read_request offset size) pad
            (be_calls (transport w)
             ++ [FeWriteAll (read_request offset size); FeReadAll size])) w).
Proof.
  intros Hidle Hsize Hroom Hrx.
  pose proof (valid_size_bounds size Hsize) as Hb.
  rewrite (read_returns_decoded offset size v pad) by done.
  rewrite received_whole.
  - rewrite sent_whole by (rewrite read_request_length; lia).
    cbn [be_connected be_room be_tx be_rx be_calls].
    rewrite Hrx, read_request_length, <- app_assoc.
    rewrite drop_app_length' by (by rewrite le_bytes_length). reflexivity.
  - rewrite sent_rx, Hrx, length_app, le_bytes_length. lia.
Qed.

Lemma write_step offset value size w :
  idle w → valid_size size →
  (Z.to_nat (6 + size) ≤ be_room (transport w))%nat →
  mmio_sockdev_write offset value size w
  = Done tt
      (with_chr
         (mkCharBackend (be_connected (transport w))
            (be_room (transport w) - Z.to_nat (6 + size))
            (be_tx (transport w)
             ++ encode_write_request (uint32_t offset) size value)
            (be_rx (transport w))
            (be_calls (transport w)
             ++ [FeWriteAll (encode_write_request (uint32_t offset) size value)]))
         w).
Proof.
  intros Hidle Hsize Hroom.
  pose proof (encode_write_request_length (uint32_t offset) size value Hsize)
    as Hlen.
  rewrite write_valid by done. cbv zeta.
  destruct (Nat.leb_spec
              (length (encode_write_request (uint32_t offset) size value))
              (be_room (transport w))); [|lia].
  rewrite sent_whole by lia. rewrite Hlen. reflexivity.
Qed.

(** X4. Two reads in a row against a peer that answers both: each returns
    its own response, the two requests are on the wire whole and in order,
    and the incoming stream is consumed exactly up to the end of the second
    response. *)
Theorem consecutive_reads_framed
  (offset1 size1 v1 offset2 size2 v2 : Z) (pad : list Z) (w : World) :
  idle w → valid_size size1 → valid_size size2 →
  (12 ≤ be_room (transport w))%nat →
  be_rx (transport w)
  = le_bytes (Z.to_nat size1) v1 ++ le_bytes (Z.to_nat size2) v2 ++ pad →
  ∃ w1 w2,
    mmio_sockdev_read offset1 size1 w = Done (v1 mod 2 ^ (8 * size1)) w1
    ∧ mmio_sockdev_read offset2 size2 w1 = Done (v2 mod 2 ^ (8 * size2)) w2
    ∧ be_tx (transport w2)
      = be_tx (transport w) ++ read_request offset1 size1
                            ++ read_request offset2 size2
    ∧ be_rx (transport w2) = pad
    ∧ diag w2 = diag w.
Proof.
  intros Hidle Hs1 Hs2 Hroom Hrx.
  eexists _, _.
  split; [apply read_step
            with (pad := le_bytes (Z.to_nat size2) v2 ++ pad); try done; lia|].
  split.
  - apply read_step with (pad := pad); try done.
    change (transport (with_chr ?c _)) with c. cbn [be_room]. lia.
  - repeat change (transport (with_chr ?c _)) with c. cbn [be_tx be_rx].
    rewrite <- app_assoc. split; [reflexivity|]. split; reflexivity.
Qed.

Lemma consecutive_reads_framed_witness :
  ∃ w1 w2,
    mmio_sockdev_read 4 1 (realised_with (backend_with 12 [65; 2; 1; 9])) = Done 65 w1
    ∧ mmio_sockdev_read 8 2 w1 = Done 258 w2
    ∧ be_tx (transport w2)
      = [] ++ read_request 4 1 ++ read_request 8 2
    ∧ be_rx (transport w2) = [9]
    ∧ diag w2 = [].
Proof.
  apply (consecutive_reads_framed 4 1 65 8 2 258 [9]
           (realised_with (backend_with 12 [65; 2; 1; 9]))).
  - reflexivity.
  - left; reflexivity.
  - right; left; reflexivity.
  - simpl. lia.
  - reflexivity.
Defined.

(** X5. A write followed by a read: the write takes nothing from the
    incoming stream, so the read returns the response the peer supplied,
    and the peer sees the write request and then the read request. *)
Theorem write_then_read
  (offset1 value size1 offset2 size2 v : Z) (pad : list Z) (w : World) :
  idle w → valid_size size1 → valid_size size2 →
  (Z.to_nat (6 + size1) + 6 ≤ be_room (transport w))%nat →
  be_rx (transport w) = le_bytes (Z.to_nat size2) v ++ pad →
  ∃ w1 w2,
    mmio_sockdev_write offset1 value size1 w = Done tt w1
    ∧ mmio_sockdev_read offset2 size2 w1 = Done (v mod 2 ^ (8 * size2)) w2
    ∧ be_tx (transport w2)
      = be_tx (transport w)
        ++ encode_write_request (uint32_t offset1) size1 value
        ++ read_request offset2 size2
    ∧ be_rx (transport w2) = pad
    ∧ diag w2 = diag w.
Proof.
  intros Hidle Hs1 Hs2 Hroom Hrx.
  eexists _, _. split; [apply write_step; try done; lia|].
  split.
  - apply read_step with (pad := pad); try done.
    change (transport (with_chr ?c _)) with c. cbn [be_room]. lia.
  - repeat change (transport (with_chr ?c _)) with c. cbn [be_tx be_rx].
    rewrite <- app_assoc. split; [reflexivity|]. split; reflexivity.
Qed.

Lemma write_then_read_witness :
  ∃ w1 w2,
    mmio_sockdev_write 0 65 1 (realised_with (backend_with 13 [1; 0; 0; 0]))
    = Done tt w1
    ∧ mmio_sockdev_read 4 4 w1 = Done 1 w2
    ∧ be_tx (transport w2)
      = [] ++ [87; 0; 0; 0; 0; 1; 65] ++ read_request 4 4
    ∧ be_rx (transport w2) = []
    ∧ diag w2 = [].
Proof.
  apply (write_then_read 0 65 1 4 4 1 []
           (realised_with (backend_with 13 [1; 0; 0; 0]))).
  - reflexivity.
  - left; reflexivity.
  - right; right; reflexivity.
  - simpl. lia.
  - reflexivity.
Defined.

(** Whatever the peer takes, a write of a valid size hands the transport
    its one packet. *)
Lemma write_reports_or_sends offset value size w :
  idle w → valid_size size →
  ∃ w', mmio_sockdev_write offset value size w = Done tt w'
    ∧ be_calls (transport w')
      = be_calls (transport w)
        ++ [FeWriteAll (encode_write_request (uint32_t offset) size value)].
Proof.
  intros Hidle Hsize. eexists. split; [apply write_valid; done|]. cbv zeta.
  destruct (_ <=? _)%nat;
    change (transport (reporting _ ?x)) with (transport x);
    change (transport (with_chr ?c _)) with c; apply sent_calls.
Qed.

(* ===================================================================== *)
(** ** What the codec keeps and what it drops *)
(* ===================================================================== *)

Lemma le_bytes_le_value bs :
  Forall (λ b, 0 ≤ b < 256) bs → le_bytes (length bs) (le_value bs) = bs.
Proof.
  induction 1 as [|b bs Hb _ IH]; [reflexivity|].
  cbn [length le_bytes le_value].
  replace (b + 256 * le_value bs) with (b + le_value bs * 256) by lia.
  f_equal.
  - rewrite Z.mod_add by lia. apply Z.mod_small. lia.
  - rewrite Z.div_add, Z.div_small by lia. exact IH.
Qed.

Lemma le_value_bound bs :
  Forall (λ b, 0 ≤ b < 256) bs →
  0 ≤ le_value bs < 2 ^ (8 * Z.of_nat (length bs)).
Proof.
  intros Hbs. rewrite <- (le_bytes_le_value bs Hbs) at 1 2.
  rewrite le_value_le_bytes. apply Z.mod_pos_bound.
  apply Z.pow_pos_nonneg; lia.
Qed.

(** On bytes, the conversion of the response is the little-endian value of
    its first [size] bytes. *)
Lemma read_convert_value size bs pad :
  valid_size size → length bs = Z.to_nat size →
  Forall (λ b, 0 ≤ b < 256) bs →
  read_convert (bs ++ pad) size = Some (le_value bs).
Proof.
  intros Hsize Hlen Hbs.
  rewrite <- (le_bytes_le_value bs Hbs) at 1. rewrite Hlen.
  rewrite read_convert_le_bytes by done. f_equal.
  pose proof (le_value_bound bs Hbs) as Hb. rewrite Hlen in Hb.
  pose proof (valid_size_bounds size Hsize).
  rewrite Z2Nat.id in Hb by lia. apply Z.mod_small. exact Hb.
Qed.

(** X6. A read whose response arrives whole returns a value within the
    access width that encodes back to exactly the [size] bytes the peer
    supplied: the conversion loses nothing and adds nothing, and takes
    precisely those bytes off the incoming stream. *)
Theorem read_value_reencodes (offset size : Z) (w : World) :
  idle w → valid_size size →
  (6 ≤ be_room (transport w))%nat →
  size ≤ Z.of_nat (length (be_rx (transport w))) →
  Forall (λ b, 0 ≤ b < 256) (be_rx (transport w)) →
  ∃ v w', mmio_sockdev_read offset size w = Done v w'
    ∧ 0 ≤ v < 2 ^ (8 * size)
    ∧ le_bytes (Z.to_nat size) v = take (Z.to_nat size) (be_rx (transport w))
    ∧ be_rx (transport w') = drop (Z.to_nat size) (be_rx (transport w))
    ∧ diag w' = diag w.
Proof.
  intros Hidle Hsize Hroom Hlen Hbytes.
  pose proof (valid_size_bounds size Hsize) as Hb.
  set (bs := take (Z.to_nat size) (be_rx (transport w))).
  assert (Hbs : Forall (λ b, 0 ≤ b < 256) bs) by (by apply Forall_take).
  assert (Hn : length bs = Z.to_nat size)
    by (subst bs; rewrite length_take; lia).
  pose proof (le_value_bound bs Hbs) as Hv.
  rewrite Hn, Z2Nat.id in Hv by lia.
  assert (Henc : le_bytes (Z.to_nat size) (le_value bs) = bs)
    by (rewrite <- Hn; by apply le_bytes_le_value).
  exists (le_value bs). eexists. split.
  - rewrite <- (Z.mod_small (le_value bs) (2 ^ (8 * size))) by exact Hv.
    apply read_step with (pad := drop (Z.to_nat size) (be_rx (transport w)));
      try done.
    rewrite Henc. subst bs. symmetry. apply take_drop.
  - split; [exact Hv|]. split; [exact Henc|]. split; reflexivity.
Qed.

Lemma read_value_reencodes_witness :
  ∃ v w',
    mmio_sockdev_read 4 2 (realised_with (backend_with 6 [255; 128; 7])) = Done v w'
    ∧ 0 ≤ v < 2 ^ (8 * 2)
    ∧ le_bytes 2 v = [255; 128]
    ∧ be_rx (transport w') = [7]
    ∧ diag w' = [].
Proof.
  apply (read_value_reencodes 4 2 (realised_with (backend_with 6 [255; 128; 7]))).
  - reflexivity.
  - right; left; reflexivity.
  - simpl. lia.
  - simpl. lia.
  - repeat constructor; lia.
Defined.

(** X7. The packet of a write can be taken apart again: its first byte is
    ['W'], the next four denote the offset modulo 2^32, the sixth is the
    size, and the rest denote the value modulo 2^(8*size). *)
Theorem write_request_decodable (offset value size : Z) (w : World) :
  idle w → valid_size size →
  ∃ w' pkt, mmio_sockdev_write offset value size w = Done tt w'
    ∧ be_calls (transport w') = be_calls (transport w) ++ [FeWriteAll pkt]
    ∧ pkt !! 0%nat = Some 87
    ∧ le_value (take 4 (drop 1 pkt)) = offset mod 2 ^ 32
    ∧ pkt !! 5%nat = Some size
    ∧ le_value (drop 6 pkt) = value mod 2 ^ (8 * size).
Proof.
  intros Hidle Hsize.
  destruct (write_reports_or_sends offset value size w Hidle Hsize)
    as (w' & Hrun & Hcalls).
  exists w', (encode_write_request (uint32_t offset) size value).
  split; [exact Hrun|]. split; [exact Hcalls|].
  unfold encode_write_request. split; [reflexivity|].
  split; [|split; [reflexivity|]].
  - change (drop 1 ([87] ++ ?l)) with l.
    rewrite take_app_length' by (by rewrite le_bytes_length).
    rewrite le_value_le_bytes. unfold uint32_t, to_unsigned.
    change (2 ^ (8 * Z.of_nat 4)) with (2 ^ 32). apply Z.mod_mod. lia.
  - change (drop 6 ([87] ++ le_bytes 4 (uint32_t offset) ++ [size] ++ ?l))
      with l.
    rewrite le_value_le_bytes.
    pose proof (valid_size_bounds size Hsize).
    rewrite Z2Nat.id by lia. apply Z.mod_mod.
    apply Z.pow_nonzero; lia.
Qed.

Lemma write_request_decodable_witness :
  ∃ w' pkt,
    mmio_sockdev_write 4294967304 66051 2 (realised_with (backend_with 100 []))
    = Done tt w'
    ∧ be_calls (transport w') = [] ++ [FeWriteAll pkt]
    ∧ pkt !! 0%nat = Some 87
    ∧ le_value (take 4 (drop 1 pkt)) = 8
    ∧ pkt !! 5%nat = Some 2
    ∧ le_value (drop 6 pkt) = 515.
Proof.
  apply (write_request_decodable 4294967304 66051 2
           (realised_with (backend_with 100 []))).
  - reflexivity.
  - right; left; reflexivity.
Defined.

(** X8. Only the low [size] bytes of the value count: values that differ
    by a multiple of 2^(8*size) make the same write. *)
Theorem write_value_truncated (offset value size k : Z) (w : World) :
  valid_size size →
  mmio_sockdev_write offset (value + k * 2 ^ (8 * size)) size w
  = mmio_sockdev_write offset value size w.
Proof.
  intros Hsize. unfold mmio_sockdev_write.
  replace (write_data (write_header offset size)
             (value + k * 2 ^ (8 * size)) size)
    with (write_data (write_header offset size) value size); [reflexivity|].
  unfold write_data, uint8_t, uint16_t, uint32_t, to_unsigned.
  destruct Hsize as [-> | [-> | ->]]; cbn [Z.eqb Pos.eqb];
    rewrite Z.mod_add by lia; reflexivity.
Qed.

Lemma write_value_truncated_witness :
  mmio_sockdev_write 0 (65 + 3 * 2 ^ (8 * 1)) 1 (realised_with (backend_with 9 []))
  = mmio_sockdev_write 0 65 1 (realised_with (backend_with 9 [])).
Proof.
  apply (write_value_truncated 0 65 1 3 (realised_with (backend_with 9 []))).
  left; reflexivity.
Defined.

(* ===================================================================== *)
(** ** Activation with a peer *)
(* ===================================================================== *)

(** X9. With a connected backend activation succeeds without a call on the
    transport: the lock is free, the 4 KiB region with access sizes 1..4 is
    created and exported, it is mapped at the base address exactly when
    that is not 0, and the device then serves accesses. *)
Theorem realize_then_usable (s : MMIOSockDevState) :
  qemu_chr_fe_backend_connected s = true →
  ∃ s', mmio_sockdev_realize s = (None, s')
    ∧ chr s' = chr s
    ∧ mmio s' = Some (mkMemoryRegion "mmio-sockdev" 4096 1 4)
    ∧ sb_mmio (parent_obj s')
      = sb_mmio (parent_obj s) ++ [mkMemoryRegion "mmio-sockdev" 4096 1 4]
    ∧ sb_mapped (parent_obj s')
      = (if base_addr s =? 0 then sb_mapped (parent_obj s)
         else Some (base_addr s))
    ∧ ∀ dg, idle (mkWorld s' dg) ∧ usable (mkWorld s' dg).
Proof.
  intros Hconn. unfold mmio_sockdev_realize. rewrite Hconn. cbn [negb].
  eexists. split; [reflexivity|]. cbn [chr mmio parent_obj].
  split; [reflexivity|]. split; [reflexivity|].
  split; [by destruct (base_addr s =? 0)|].
  split; [by destruct (base_addr s =? 0)|].
  intros dg. split; [reflexivity | by apply idle_usable].
Qed.

Lemma realize_then_usable_witness :
  ∃ s', mmio_sockdev_realize (constructed_with (backend_with 9 [])) = (None, s')
    ∧ chr s' = backend_with 9 []
    ∧ mmio s' = Some (mkMemoryRegion "mmio-sockdev" 4096 1 4)
    ∧ sb_mmio (parent_obj s') = [] ++ [mkMemoryRegion "mmio-sockdev" 4096 1 4]
    ∧ sb_mapped (parent_obj s') = Some MMIO_BASE
    ∧ ∀ dg, idle (mkWorld s' dg) ∧ usable (mkWorld s' dg).
Proof.
  apply (realize_then_usable (constructed_with (backend_with 9 []))).
  reflexivity.
Defined.

(* ===================================================================== *)
(** ** Guest accesses through the bus *)
(* ===================================================================== *)

Lemma bus_lookup_sizes s addr size offset :
  mmio s = Some mmio_sockdev_region →
  bus_lookup s addr size = Some offset →
  1 ≤ size ≤ 4 ∧ 0 ≤ offset < 4096.
Proof.
  intros Hmr. unfold bus_lookup. rewrite Hmr.
  destruct (sb_mapped (parent_obj s)) as [base|]; [|discriminate].
  cbn [mmio_sockdev_region mr_size mr_min_access_size mr_max_access_size].
  destruct (Z.leb_spec base addr); [|discriminate].
  destruct (Z.ltb_spec addr (base + 4096)); [|discriminate].
  destruct (Z.leb_spec 1 size); [|discriminate].
  destruct (Z.leb_spec size 4); [|discriminate].
  cbn [andb]. intros [= <-]. lia.
Qed.

(** Up to the eight bytes of [buf] no read overruns it, whatever the state
    of the lock and of the peer. *)
Lemma read_fits offset size w :
  0 ≤ size ≤ 8 → mmio_sockdev_read offset size w ≠ Fault BufferOverrun.
Proof.
  intros Hsize.
  destruct (lock (dev w)) eqn:Hlock.
  - destruct (unrealised_serves_nothing offset size 0 w Hlock) as [-> _].
    discriminate.
  - assert (Hidle : idle w) by exact Hlock.
    destruct (Nat.lt_ge_cases (be_room (transport w)) 6) as [Hroom | Hroom].
    { rewrite read_short_write by done. discriminate. }
    destruct (Z.lt_ge_cases (Z.of_nat (length (be_rx (transport w)))) size)
      as [Hrx | Hrx].
    { rewrite read_short_read by (done || lia). discriminate. }
    rewrite read_full_response by done. cbv zeta.
    destruct (read_convert _ size); discriminate.
  - destruct (held_lock_blocks offset size 0 w Hlock) as [-> _].
    discriminate.
Qed.

(** X11. Behind the access sizes its region declares, no guest read
    overruns the response buffer: whatever the address, the size, the state
    of the lock and of the peer, a read through the bus does not end in an
    overrun of [buf]. *)
Theorem bus_read_never_overruns (addr size : Z) (w : World) :
  mmio (dev w) = Some mmio_sockdev_region →
  bus_read addr size w ≠ Halted (DeviceStuck BufferOverrun).
Proof.
  intros Hmr. unfold bus_read.
  destruct (bus_lookup (dev w) addr size) as [offset|] eqn:Hlook;
    [|discriminate].
  destruct (bus_lookup_sizes _ _ _ _ Hmr Hlook) as [Hsize _].
  unfold device.
  destruct (mmio_sockdev_read offset size w) as [v w'|f] eqn:Hrun;
    [discriminate|].
  intros [= ->]. revert Hrun. apply read_fits. lia.
Qed.

Lemma bus_read_never_overruns_witness :
  bus_read (MMIO_BASE + 4) 4
    (attached_with (backend_with 100 [1; 2; 3; 4; 5; 6; 7; 8; 9; 10]))
  ≠ Halted (DeviceStuck BufferOverrun).
Proof.
  apply (bus_read_never_overruns (MMIO_BASE + 4) 4
           (attached_with (backend_with 100 [1; 2; 3; 4; 5; 6; 7; 8; 9; 10]))).
  reflexivity.
Defined.

(* ===================================================================== *)
(** ** The firmware against the device *)
(* ===================================================================== *)

Lemma attached_with_chr c w : attached w → attached (with_chr c w).
Proof. intros H. exact H. Qed.

Lemma attached_reporting r w : attached w → attached (reporting r w).
Proof. intros H. exact H. Qed.

Lemma attached_idle w : attached w → idle w.
Proof. by intros (_ & _ & H). Qed.

Lemma bus_lookup_attached w offset size :
  attached w → 0 ≤ offset < 4096 → 1 ≤ size ≤ 4 →
  bus_lookup (dev w) (MMIO_BASE + offset) size = Some offset.
Proof.
  intros (Hmr & Hmap & _) Hoff Hsize. unfold bus_lookup.
  rewrite Hmr, Hmap.
  cbn [mmio_sockdev_region mr_size mr_min_access_size mr_max_access_size].
  destruct (Z.leb_spec MMIO_BASE (MMIO_BASE + offset)); [|lia].
  destruct (Z.ltb_spec (MMIO_BASE + offset) (MMIO_BASE + 4096)); [|lia].
  destruct (Z.leb_spec 1 size); [|lia].
  destruct (Z.leb_spec size 4); [|lia].
  cbn [andb]. f_equal. lia.
Qed.

Lemma land_1 x : Z.land x 1 = x mod 2.
Proof. change 1 with (Z.ones 1) at 1. rewrite Z.land_ones by lia. reflexivity. Qed.

Lemma status_bit v : Z.land (uint32_t (v mod 2 ^ (8 * 4))) 1 = v mod 2.
Proof.
  assert (Hlow : ∀ x, (x mod 2 ^ 32) mod 2 = x mod 2)
    by (intros x; apply (mod_mod_pow2 x 1 32); lia).
  rewrite land_1. unfold uint32_t, to_unsigned.
  change (2 ^ (8 * 4)) with (2 ^ 32). by rewrite !Hlow.
Qed.

(** One poll of STATUS answered by the peer. *)
Lemma mmio_read32_status v pad w :
  attached w → (6 ≤ be_room (transport w))%nat →
  be_rx (transport w) = le_bytes 4 v ++ pad →
  mmio_read32 STATUS_REG w
  = Returned (uint32_t (v mod 2 ^ (8 * 4)))
      (with_chr
         (mkCharBackend (be_connected (transport w))
            (be_room (transport w) - 6)
            (be_tx (transport w) ++ status_poll) pad
            (be_calls (transport w)
             ++ [FeWriteAll status_poll; FeReadAll 4])) w).
Proof.
  intros Hatt Hroom Hrx. unfold mmio_read32, bus_read.
  cbv [mbind G_bind mret G_ret].
  change (uint32_t STATUS_REG) with (MMIO_BASE + 4).
  rewrite bus_lookup_attached by (done || lia). unfold device.
  rewrite (read_step 4 4 v pad w (attached_idle w Hatt)
             (or_intror (or_intror eq_refl)) Hroom Hrx).
  reflexivity.
Qed.

(** One poll of STATUS that gets no whole answer: the access returns 0, the
    device stays attached and the incoming stream stays short. *)
Lemma mmio_read32_silent w :
  attached w → (length (be_rx (transport w)) < 4)%nat →
  ∃ w', mmio_read32 STATUS_REG w = Returned 0 w'
    ∧ attached w' ∧ (length (be_rx (transport w')) < 4)%nat.
Proof.
  intros Hatt Hrx. unfold mmio_read32, bus_read.
  cbv [mbind G_bind mret G_ret].
  change (uint32_t STATUS_REG) with (MMIO_BASE + 4).
  rewrite bus_lookup_attached by (done || lia). unfold device.
  pose proof (attached_idle w Hatt) as Hidle.
  destruct (Nat.lt_ge_cases (be_room (transport w)) 6) as [Hroom | Hroom].
  - rewrite read_short_write by done. eexists. split; [reflexivity|].
    split; [exact Hatt|].
    change (transport (reporting _ (with_chr ?c _))) with c.
    by rewrite sent_rx.
  - rewrite (read_short_read 4 4 w Hidle Hroom) by (simpl; lia).
    eexists. split; [reflexivity|].
    split; [exact Hatt|].
    change (transport (reporting _ (with_chr ?c _))) with c.
    destruct (received_short (sent (transport w) (read_request 4 4)) (to_int 4))
      as [-> _]; [|simpl; lia].
    rewrite sent_rx. change (Z.to_nat (to_int 4)) with 4%nat. lia.
Qed.

Lemma txdata_packet c :
  encode_write_request (uint32_t 0) 1 (uint8_t c) = txdata_write c.
Proof.
  unfold encode_write_request, txdata_write, uint8_t, to_unsigned.
  change (Z.to_nat 1) with 1%nat. cbn [le_bytes app].
  change (2 ^ (8 * 1)) with (2 ^ 8). change 256 with (2 ^ 8).
  rewrite !mod_mod_pow2 by lia. reflexivity.
Qed.

Lemma mmio_write8_txdata c w :
  attached w → (7 ≤ be_room (transport w))%nat →
  mmio_write8 TXDATA_REG c w
  = Returned tt
      (with_chr
         (mkCharBackend (be_connected (transport w))
            (be_room (transport w) - 7)
            (be_tx (transport w) ++ txdata_write c) (be_rx (transport w))
            (be_calls (transport w) ++ [FeWriteAll (txdata_write c)])) w).
Proof.
  intros Hatt Hroom. unfold mmio_write8, bus_write.
  change (uint32_t TXDATA_REG) with (MMIO_BASE + 0).
  rewrite bus_lookup_attached by (done || lia). unfold device.
  rewrite (write_step 0 (uint8_t c) 1 w (attached_idle w Hatt)
             (or_introl eq_refl)) by (simpl; lia).
  rewrite txdata_packet. reflexivity.
Qed.

(** One turn of the loop. *)
Lemma wait_tx_ready_S fuel w :
  wait_tx_ready (S fuel) w
  = match mmio_read32 STATUS_REG w with
    | Returned st w' =>
        if Z.land st 1 =? 0 then wait_tx_ready fuel w' else Returned tt w'
    | Halted h => Halted h
    end.
Proof.
  cbn [wait_tx_ready]. cbv [mbind G_bind].
  destruct (mmio_read32 STATUS_REG w) as [st w'|]; [|reflexivity].
  by destruct (Z.land st 1 =? 0).
Qed.

(** The loop of [wait_tx_ready] against a peer that answers "not ready" to
    the polls in [polls] and then "ready". *)
Lemma wait_tx_ready_run polls ready rest extra w :
  attached w →
  Forall (λ v, v mod 2 = 0) polls → ready mod 2 = 1 →
  (6 * S (length polls) ≤ be_room (transport w))%nat →
  be_rx (transport w) = flat_map (le_bytes 4) polls ++ le_bytes 4 ready ++ rest →
  ∃ w', wait_tx_ready (S (length polls) + extra) w = Returned tt w'
    ∧ attached w'
    ∧ be_tx (transport w')
      = be_tx (transport w) ++ concat (replicate (S (length polls)) status_poll)
    ∧ be_rx (transport w') = rest
    ∧ be_room (transport w')
      = (be_room (transport w) - 6 * S (length polls))%nat
    ∧ diag w' = diag w.
Proof.
  intros Hatt Hpolls Hready. revert w Hatt.
  induction Hpolls as [|v polls Hv _ IH]; intros w Hatt Hroom Hrx.
  - cbn [flat_map app] in Hrx. cbn [length Nat.add].
    rewrite wait_tx_ready_S, (mmio_read32_status ready rest) by (done || lia).
    rewrite status_bit, Hready. cbn [Z.eqb].
    eexists. split; [reflexivity|]. split; [exact Hatt|].
    change (transport (with_chr ?c _)) with c. cbn [be_tx be_rx be_room].
    cbn [length replicate concat]. rewrite app_nil_r. repeat split; lia.
  - cbn [flat_map] in Hrx. rewrite <- app_assoc in Hrx.
    cbn [length] in Hroom |- *.
    change (S (S (length polls)) + extra)%nat
      with (S (S (length polls) + extra)).
    rewrite wait_tx_ready_S, (mmio_read32_status v _ w Hatt ltac:(lia) Hrx).
    rewrite status_bit, Hv. cbn [Z.eqb].
    match goal with
    | |- context [wait_tx_ready _ ?w1] =>
        destruct (IH w1) as (w' & Hrun & Hatt' & Htx & Hrx' & Hroom' & Hdiag);
          [apply attached_with_chr; exact Hatt | | | ]
    end.
    + change (transport (with_chr ?c _)) with c. cbn [be_room]. lia.
    + change (transport (with_chr ?c _)) with c. cbn [be_rx]. reflexivity.
    + exists w'. split; [exact Hrun|]. split; [exact Hatt'|].
      change (transport (with_chr ?c _)) with c in Htx, Hroom'.
      cbn [be_tx be_room] in Htx, Hroom'.
      rewrite Htx, Hrx', Hroom', Hdiag.
      cbn [replicate concat]. rewrite <- app_assoc.
      repeat split; lia.
Qed.

(** One character: a poll answered "ready", then the byte. *)
Lemma send_char_run c ready rest fuel w :
  attached w → ready mod 2 = 1 →
  (13 ≤ be_room (transport w))%nat →
  be_rx (transport w) = le_bytes 4 ready ++ rest →
  ∃ w', send_char (S fuel) c w = Returned tt w'
    ∧ attached w'
    ∧ be_tx (transport w')
      = be_tx (transport w) ++ status_poll ++ txdata_write c
    ∧ be_rx (transport w') = rest
    ∧ be_room (transport w') = (be_room (transport w) - 13)%nat
    ∧ diag w' = diag w.
Proof.
  intros Hatt Hready Hroom Hrx.
  destruct (wait_tx_ready_run [] ready rest fuel w Hatt (Forall_nil_2 _) Hready)
    as (w1 & Hrun & Hatt1 & Htx1 & Hrx1 & Hroom1 & Hdiag1);
    [cbn [length]; lia | exact Hrx |].
  cbn [length Nat.add replicate concat] in Hrun, Htx1, Hroom1.
  rewrite app_nil_r in Htx1.
  unfold send_char. cbv [mbind G_bind]. rewrite Hrun.
  rewrite (mmio_write8_txdata c w1 Hatt1) by lia.
  eexists. split; [reflexivity|]. split; [exact Hatt1|].
  change (transport (with_chr ?x _)) with x. cbn [be_tx be_rx be_room].
  change (diag (with_chr _ ?x)) with (diag x).
  rewrite Htx1, Hrx1, Hroom1, Hdiag1, <- app_assoc. repeat split; lia.
Qed.

Lemma send_string_run str readies rest fuel w :
  attached w →
  length readies = length (c_string str) →
  Forall (λ v, v mod 2 = 1) readies →
  (13 * length (c_string str) ≤ be_room (transport w))%nat →
  be_rx (transport w) = flat_map (le_bytes 4) readies ++ rest →
  ∃ w', send_string (S fuel) str w = Returned tt w'
    ∧ attached w'
    ∧ be_tx (transport w')
      = be_tx (transport w)
        ++ flat_map (λ c, status_poll ++ txdata_write c) (c_string str)
    ∧ be_rx (transport w') = rest
    ∧ be_room (transport w')
      = (be_room (transport w) - 13 * length (c_string str))%nat
    ∧ diag w' = diag w.
Proof.
  revert readies w.
  induction str as [|c str IH]; intros readies w Hatt Hlen Hodd Hroom Hrx.
  - cbn [c_string length] in Hlen.
    destruct readies; [|discriminate Hlen]. cbn [flat_map app] in Hrx.
    exists w. cbn [c_string flat_map length]. rewrite app_nil_r.
    split; [reflexivity|]. split; [exact Hatt|]. repeat split; (done || lia).
  - cbn [c_string send_string] in *.
    destruct (Z.eqb_spec c 0) as [Hc | Hc].
    + cbn [length] in Hlen.
      destruct readies; [|discriminate Hlen]. cbn [flat_map app] in Hrx.
      exists w. cbn [flat_map length]. rewrite app_nil_r.
      split; [reflexivity|]. split; [exact Hatt|].
      repeat split; (done || lia).
    + destruct readies as [|ready readies]; [discriminate Hlen|].
      cbn [length] in Hlen, Hroom. injection Hlen as Hlen.
      apply Forall_cons in Hodd as [Hready Hodd].
      cbn [flat_map] in Hrx. rewrite <- app_assoc in Hrx.
      destruct (send_char_run c ready _ fuel w Hatt Hready ltac:(lia) Hrx)
        as (w1 & Hrun1 & Hatt1 & Htx1 & Hrx1 & Hroom1 & Hdiag1).
      destruct (IH readies w1 Hatt1 Hlen Hodd ltac:(lia) Hrx1)
        as (w2 & Hrun2 & Hatt2 & Htx2 & Hrx2 & Hroom2 & Hdiag2).
      exists w2. cbv [mbind G_bind]. rewrite Hrun1.
      split; [exact Hrun2|]. split; [exact Hatt2|].
      rewrite Htx2, Htx1, Hrx2, Hroom2, Hroom1, Hdiag2, Hdiag1.
      cbn [flat_map length]. rewrite <- !app_assoc.
      repeat split; lia.
Qed.

(** X12. [wait_tx_ready] against a peer that answers "not ready" [k] times
    and then "ready" returns after exactly [k]+1 polls of STATUS: the wire
    carries [k]+1 read requests for 4 bytes at offset 4 and nothing else,
    the [k]+1 responses are consumed, and nothing is reported. *)
Theorem wait_tx_ready_polls
  (polls : list Z) (ready : Z) (rest : list Z) (extra : nat) (w : World) :
  attached w →
  Forall (λ v, v mod 2 = 0) polls → ready mod 2 = 1 →
  (6 * S (length polls) ≤ be_room (transport w))%nat →
  be_rx (transport w) = flat_map (le_bytes 4) polls ++ le_bytes 4 ready ++ rest →
  ∃ w', wait_tx_ready (S (length polls) + extra) w = Returned tt w'
    ∧ be_tx (transport w')
      = be_tx (transport w)
        ++ concat (replicate (S (length polls)) [82; 4; 0; 0; 0; 4])
    ∧ be_rx (transport w') = rest
    ∧ diag w' = diag w.
Proof.
  intros Hatt Hpolls Hready Hroom Hrx.
  destruct (wait_tx_ready_run polls ready rest extra w Hatt Hpolls Hready
              Hroom Hrx) as (w' & Hrun & _ & Htx & Hrx' & _ & Hdiag).
  exists w'. done.
Qed.

Lemma wait_tx_ready_polls_witness :
  ∃ w', wait_tx_ready (3 + 2)
          (attached_with (backend_with 18 [0; 0; 0; 0; 2; 0; 0; 0; 3; 0; 0; 0; 9]))
        = Returned tt w'
    ∧ be_tx (transport w')
      = [] ++ concat (replicate 3 [82; 4; 0; 0; 0; 4])
    ∧ be_rx (transport w') = [9]
    ∧ diag w' = [].
Proof.
  apply (wait_tx_ready_polls [0; 2] 3 [9] 2
           (attached_with
              (backend_with 18 [0; 0; 0; 0; 2; 0; 0; 0; 3; 0; 0; 0; 9]))).
  - repeat split.
  - repeat constructor.
  - reflexivity.
  - simpl. lia.
  - reflexivity.
Defined.

(** X13. Once the peer no longer supplies a whole STATUS response (it takes
    no more requests, or has hung up), every poll returns 0 and
    [wait_tx_ready] never leaves its loop: whatever the fuel, it runs out. *)
Theorem wait_tx_ready_spins (fuel : nat) (w : World) :
  attached w → (length (be_rx (transport w)) < 4)%nat →
  wait_tx_ready fuel w = Halted OutOfFuel.
Proof.
  revert w. induction fuel as [|fuel IH]; intros w Hatt Hrx; [reflexivity|].
  destruct (mmio_read32_silent w Hatt Hrx) as (w' & Hrun & Hatt' & Hrx').
  rewrite wait_tx_ready_S, Hrun. cbn [Z.land Z.eqb]. by apply IH.
Qed.

Lemma wait_tx_ready_spins_witness :
  wait_tx_ready 50 (attached_with (backend_with 20 [1; 0; 0])) = Halted OutOfFuel.
Proof.
  apply (wait_tx_ready_spins 50 (attached_with (backend_with 20 [1; 0; 0]))).
  - repeat split.
  - simpl. lia.
Defined.

(** X14. [send_string] against a peer that is ready at every poll sends,
    for each character before the first NUL and in order, one STATUS read
    request followed by one 1-byte TXDATA write request carrying the
    character modulo 256; nothing is sent for the NUL or after it. *)
Theorem send_string_wire
  (str readies rest : list Z) (fuel : nat) (w : World) :
  attached w →
  length readies = length (c_string str) →
  Forall (λ v, v mod 2 = 1) readies →
  (13 * length (c_string str) ≤ be_room (transport w))%nat →
  be_rx (transport w) = flat_map (le_bytes 4) readies ++ rest →
  ∃ w', send_string (S fuel) str w = Returned tt w'
    ∧ be_tx (transport w')
      = be_tx (transport w)
        ++ flat_map (λ c, [82; 4; 0; 0; 0; 4] ++ [87; 0; 0; 0; 0; 1; c mod 256])
             (c_string str)
    ∧ be_rx (transport w') = rest
    ∧ diag w' = diag w.
Proof.
  intros Hatt Hlen Hodd Hroom Hrx.
  destruct (send_string_run str readies rest fuel w Hatt Hlen Hodd Hroom Hrx)
    as (w' & Hrun & _ & Htx & Hrx' & _ & Hdiag).
  exists w'. done.
Qed.

Lemma send_string_wire_witness :
  ∃ w', send_string 1 [72; 105; 0; 33]
          (attached_with (backend_with 26 [1; 0; 0; 0; 3; 0; 0; 0; 7]))
        = Returned tt w'
    ∧ be_tx (transport w')
      = [] ++ ([82; 4; 0; 0; 0; 4] ++ [87; 0; 0; 0; 0; 1; 72])
           ++ ([82; 4; 0; 0; 0; 4] ++ [87; 0; 0; 0; 0; 1; 105]) ++ []
    ∧ be_rx (transport w') = [7]
    ∧ diag w' = [].
Proof.
  apply (send_string_wire [72; 105; 0; 33] [1; 3] [7] 0
           (attached_with (backend_with 26 [1; 0; 0; 0; 3; 0; 0; 0; 7]))).
  - repeat split.
  - reflexivity.
  - repeat constructor.
  - simpl. lia.
  - reflexivity.
Defined.

Lemma mmio_write32_ctrl w :
  attached w → (10 ≤ be_room (transport w))%nat →
  mmio_write32 CTRL_REG 1 w
  = Returned tt
      (with_chr
         (mkCharBackend (be_connected (transport w))
            (be_room (transport w) - 10)
            (be_tx (transport w) ++ [87; 8; 0; 0; 0; 4; 1; 0; 0; 0])
            (be_rx (transport w))
            (be_calls (transport w)
             ++ [FeWriteAll [87; 8; 0; 0; 0; 4; 1; 0; 0; 0]])) w).
Proof.
  intros Hatt Hroom. unfold mmio_write32, bus_write.
  change (uint32_t CTRL_REG) with (MMIO_BASE + 8).
  rewrite bus_lookup_attached by (done || lia). unfold device.
  rewrite (write_step 8 (uint32_t 1) 4 w (attached_idle w Hatt)
             (or_intror (or_intror eq_refl))) by (simpl; lia).
  reflexivity.
Qed.

(** X15. End to end: a device constructed with the firmware's base address
    and a connected peer activates, and [main], run against a peer that is
    ready at each of the 24 polls, reaches its closing loop having put on
    the wire the 4-byte write of 1 to CTRL and then, per character of the
    greeting, a STATUS read request and a TXDATA write request; every
    response is consumed and nothing is reported. *)
Theorem firmware_end_to_end
  (c : CharBackend) (readies rest : list Z) (fuel : nat) :
  be_connected c = true →
  length readies = 24%nat →
  Forall (λ v, v mod 2 = 1) readies →
  (322 ≤ be_room c)%nat →
  be_rx c = flat_map (le_bytes 4) readies ++ rest →
  ∃ s' w', mmio_sockdev_realize (constructed_with c) = (None, s')
    ∧ main (S fuel) (mkWorld s' []) = Returned tt w'
    ∧ be_tx (transport w')
      = be_tx c ++ [87; 8; 0; 0; 0; 4; 1; 0; 0; 0]
        ++ flat_map (λ ch, [82; 4; 0; 0; 0; 4] ++ [87; 0; 0; 0; 0; 1; ch]) hello
    ∧ be_rx (transport w') = rest
    ∧ diag w' = [].
Proof.
  intros Hconn Hlen Hodd Hroom Hrx.
  set (s' := mkMMIOSockDevState
               (mkSysBusDevice [mmio_sockdev_region] (Some MMIO_BASE))
               (Some mmio_sockdev_region) c MMIO_BASE MutexFree).
  set (w := mkWorld s' []).
  assert (Hreal : mmio_sockdev_realize (constructed_with c) = (None, s')).
  { unfold mmio_sockdev_realize, qemu_chr_fe_backend_connected.
    cbn [constructed_with chr]. rewrite Hconn. reflexivity. }
  assert (Hatt : attached w) by (repeat split).
  pose proof (mmio_write32_ctrl w Hatt) as Hctrl.
  change (transport w) with c in Hctrl.
  destruct (send_string_run hello readies rest fuel
              (with_chr
                 (mkCharBackend (be_connected c) (be_room c - 10)
                    (be_tx c ++ [87; 8; 0; 0; 0; 4; 1; 0; 0; 0]) (be_rx c)
                    (be_calls c
                     ++ [FeWriteAll [87; 8; 0; 0; 0; 4; 1; 0; 0; 0]])) w))
    as (w2 & Hrun & _ & Htx & Hrx2 & _ & Hdiag).
  - apply attached_with_chr. exact Hatt.
  - exact Hlen.
  - exact Hodd.
  - change (transport (with_chr ?x _)) with x. cbn [be_room].
    change (length (c_string hello)) with 24%nat. lia.
  - exact Hrx.
  - exists s', w2. split; [exact Hreal|].
    change (mkWorld s' []) with w.
    split; [unfold main; cbv [mbind G_bind]; rewrite Hctrl by lia; exact Hrun|].
    change (transport (with_chr ?x _)) with x in Htx.
    cbn [be_tx] in Htx. rewrite Htx, <- app_assoc.
    split; [reflexivity|]. split; [exact Hrx2 | exact Hdiag].
Qed.

Lemma firmware_end_to_end_witness :
  ∃ s' w',
    mmio_sockdev_realize
      (constructed_with (backend_with 322 (concat (replicate 24 [1; 0; 0; 0]))))
    = (None, s')
    ∧ main 1 (mkWorld s' []) = Returned tt w'
    ∧ be_tx (transport w')
      = [] ++ [87; 8; 0; 0; 0; 4; 1; 0; 0; 0]
        ++ flat_map (λ ch, [82; 4; 0; 0; 0; 4] ++ [87; 0; 0; 0; 0; 1; ch]) hello
    ∧ be_rx (transport w') = []
    ∧ diag w' = [].
Proof.
  apply (firmware_end_to_end
           (backend_with 322 (concat (replicate 24 [1; 0; 0; 0])))
           (replicate 24 1) [] 0).
  - reflexivity.
  - reflexivity.
  - repeat constructor.
  - simpl. lia.
  - reflexivity.
Defined.
